(** * cell_simulator.py: the simulation core, embedded and verified

    The program is a pygame toy: cells wander, steer toward food, eat, split
    and die.  This development embeds the state-changing part of
    [cell_simulator.py] (the classes [Food] and [Cell], the event handlers and
    the per-frame pass of the main loop) and proves properties of it.

    Modelling conventions.
    - Python floats are read as real numbers ([R]): every arithmetic
      operation is the exact one, [math.cos], [math.sin], [math.atan2] and
      [math.pi] are the functions and the constant of analysis.  The
      rounding of binary64 arithmetic is not modelled: where a statement
      writes a sum such as [angle + turn], the source computes that sum
      rounded once.
    - Python ints stay integers ([Z]); an int meeting a float is injected
      with [IZR].
    - The module-level [random] generator is an explicit state, threaded
      through every function that draws from it, in the order the source
      draws.
    - A method that mutates [self] returns the new value of the object;
      [update], which also deletes from the shared [foods] list, returns the
      new list as well.  The main loop reads and writes the cells of the
      [cells] list by index, as the source does through object references.
    - Rendering is left out, except for the one state change made by
      [Cell.draw]: the assignment to [self.radius]. *)

From Stdlib Require Import Reals Lra Lia ZArith List Bool String.
From Stdlib Require Import Zfloor.
Import ListNotations.

Open Scope R_scope.

(* -------------------- CONFIG -------------------- *)

Definition WIDTH : R := 900.
Definition HEIGHT : R := 600.
Definition FPS : Z := 60.

Definition BACKGROUND_TOP : Z * Z * Z := (15, 20, 30)%Z.
Definition BACKGROUND_BOTTOM : Z * Z * Z := (30, 40, 60)%Z.
Definition FOOD_RADIUS : Z := 4.

Definition INITIAL_CELLS : nat := 8.
Definition CELL_MIN_RADIUS : Z := 8.
Definition CELL_MAX_RADIUS : Z := 18.
Definition CELL_BASE_SPEED : R := 1.
Definition ENERGY_LOSS_PER_SEC : R := 1.
Definition ENERGY_FROM_FOOD : R := 20.
Definition SPLIT_ENERGY_THRESHOLD : R := 60.
Definition SPLIT_ENERGY_COST : R := 30.
Definition MAX_ENERGY : R := 100.

Definition FOOD_PER_SPAWN : nat := 3.
Definition MAX_FOOD : nat := 200.
Definition CELL_SENSE_RADIUS : R := 120.
Definition CELL_MAX_TURN : R := 25 / 100.

(* -------------------- PYTHON PRIMITIVES -------------------- *)

(** Comparisons of floats, as booleans. *)
Definition Rltb (a b : R) : bool := if Rlt_dec a b then true else false.
Definition Rleb (a b : R) : bool := if Rle_dec a b then true else false.

(** [max(a, b)] and [min(a, b)] of Python: the first argument is kept
    unless the second is strictly better. *)
Definition py_max (a b : R) : R := if Rlt_dec a b then b else a.
Definition py_min (a b : R) : R := if Rlt_dec b a then b else a.

(** [a % b] on floats: the result has the sign of [b]; for [b > 0] it lies
    in [0, b).  ([b = 0] raises in Python; the source only divides by
    [2 * math.pi].) *)
Definition py_fmod (a b : R) : R := a - b * IZR (Zfloor (a / b)).

(** [int(r)]: truncation toward zero. *)
Definition py_int (r : R) : Z := if Rle_dec 0 r then Zfloor r else Zceil r.

(** [math.atan2(y, x)], by quadrant (signed zeros do not exist in [R]). *)
Definition atan2 (y x : R) : R :=
  if Rlt_dec 0 x then atan (y / x)
  else if Rlt_dec x 0 then
    (if Rle_dec 0 y then atan (y / x) + PI else atan (y / x) - PI)
  else if Rlt_dec 0 y then PI / 2
  else if Rlt_dec y 0 then - (PI / 2)
  else 0.

(* -------------------- THE random MODULE -------------------- *)

(** The generator is an oracle: the stream of values [random.random()]
    would return, the stream of raw integers behind [random.randint], and
    the number of draws made so far. *)
Record Rng : Type := mkRng {
  unit_src : nat -> R;
  int_src : nat -> Z;
  draws : nat
}.

(** A generator is well formed when [random.random()] stays in [0, 1). *)
Definition rng_ok (g : Rng) : Prop := forall n, 0 <= unit_src g n < 1.

(** Computations that draw random numbers. *)
Definition Rand (A : Type) : Type := Rng -> A * Rng.

Definition ret {A : Type} (a : A) : Rand A := fun g => (a, g).

Definition bind {A B : Type} (m : Rand A) (k : A -> Rand B) : Rand B :=
  fun g => let (a, g') := m g in k a g'.

Declare Scope rand_scope.
Delimit Scope rand_scope with rand.
Notation "x <- m ;; k" := (bind m (fun x => k))
  (at level 61, m at next level, right associativity) : rand_scope.
Notation "' p <- m ;; k" := (bind m (fun p => k))
  (at level 61, p pattern, m at next level, right associativity) : rand_scope.
Open Scope rand_scope.

Definition advance (g : Rng) : Rng :=
  mkRng (unit_src g) (int_src g) (S (draws g)).

(** [random.random()] *)
Definition random : Rand R := fun g => (unit_src g (draws g), advance g).

(** [random.uniform(a, b)], which CPython computes as
    [a + (b - a) * random()]. *)
Definition uniform (a b : R) : Rand R :=
  u <- random ;; ret (a + (b - a) * u).

(** [random.randint(a, b)]: an integer of [a..b] (the source always has
    [a <= b]). *)
Definition randint (a b : Z) : Rand Z :=
  fun g => ((a + (int_src g (draws g)) mod (b - a + 1))%Z, advance g).

(** [for _ in range(n)] around a computation that builds a list. *)
Fixpoint repeatM {A : Type} (n : nat) (m : Rand A) : Rand (list A) :=
  match n with
  | O => ret []
  | S n' => a <- m ;; l <- repeatM n' m ;; ret (a :: l)
  end.

(* -------------------- UTILITY -------------------- *)

Definition lerp (a b t : R) : R := a + (b - a) * t.

(** [gradient_bg(surface, top, bottom)]: the colors of the horizontal lines
    it draws, for [y] in [range(height)], in that order.  The division
    [y / height] is only reached inside the loop, where [height > 0]. *)
Definition gradient_row (height : nat) (top bottom : Z * Z * Z) (y : nat)
  : Z * Z * Z :=
  let '(t0, t1, t2) := top in
  let '(b0, b1, b2) := bottom in
  (py_int (lerp (IZR t0) (IZR b0) (INR y / INR height)),
   py_int (lerp (IZR t1) (IZR b1) (INR y / INR height)),
   py_int (lerp (IZR t2) (IZR b2) (INR y / INR height))).

Definition gradient_bg (height : nat) (top bottom : Z * Z * Z)
  : list (Z * Z * Z) :=
  map (gradient_row height top bottom) (seq 0 height).

(* -------------------- CLASSES -------------------- *)

Module Food.

Record t : Type := mk { x : R; y : R }.

End Food.

Module Cell.

Record t : Type := mk {
  x : R;
  y : R;
  radius : Z;
  base_radius : Z;
  angle : R;
  speed : R;
  energy : R;
  color : Z * Z * Z;
  trail : list (R * R);       (* deque(maxlen=8), oldest first *)
  time_offset : R
}.

(** Attribute assignments. *)
Definition set_x (c : t) (v : R) : t :=
  mk v (y c) (radius c) (base_radius c) (angle c) (speed c) (energy c)
     (color c) (trail c) (time_offset c).
Definition set_y (c : t) (v : R) : t :=
  mk (x c) v (radius c) (base_radius c) (angle c) (speed c) (energy c)
     (color c) (trail c) (time_offset c).
Definition set_radius (c : t) (v : Z) : t :=
  mk (x c) (y c) v (base_radius c) (angle c) (speed c) (energy c)
     (color c) (trail c) (time_offset c).
Definition set_angle (c : t) (v : R) : t :=
  mk (x c) (y c) (radius c) (base_radius c) v (speed c) (energy c)
     (color c) (trail c) (time_offset c).
Definition set_energy (c : t) (v : R) : t :=
  mk (x c) (y c) (radius c) (base_radius c) (angle c) (speed c) v
     (color c) (trail c) (time_offset c).
Definition set_color (c : t) (v : Z * Z * Z) : t :=
  mk (x c) (y c) (radius c) (base_radius c) (angle c) (speed c) (energy c)
     v (trail c) (time_offset c).
Definition set_trail (c : t) (v : list (R * R)) : t :=
  mk (x c) (y c) (radius c) (base_radius c) (angle c) (speed c) (energy c)
     (color c) v (time_offset c).

(** [deque.append] on a deque of [maxlen=8]: a full deque drops its oldest
    element. *)
Definition trail_maxlen : nat := 8.
Definition deque_append (d : list (R * R)) (p : R * R) : list (R * R) :=
  if (trail_maxlen <=? List.length d)%nat then tl d ++ [p] else d ++ [p].

(** [Cell.__init__(self, x, y, radius=None)].  [radius if radius else ...]
    tests truthiness, so an explicit [0] draws a radius too. *)
Definition init (x0 y0 : R) (radius0 : option Z) : Rand t :=
  r <- match radius0 with
       | Some r0 => if (r0 =? 0)%Z
                    then randint CELL_MIN_RADIUS CELL_MAX_RADIUS
                    else ret r0
       | None => randint CELL_MIN_RADIUS CELL_MAX_RADIUS
       end ;;
  u <- random ;;
  e <- uniform 20 50 ;;
  c0 <- randint 80 255 ;;
  c1 <- randint 80 255 ;;
  c2 <- randint 80 255 ;;
  o <- uniform 0 (2 * PI) ;;
  ret (mk x0 y0 r r (u * 2 * PI)
          (CELL_BASE_SPEED *
             (1 + IZR (CELL_MAX_RADIUS - r) / IZR (CELL_MAX_RADIUS * 2)))
          e (c0, c1, c2) [] o).

(** [update(self, dt, foods, all_cells, time)], phase by phase. *)

(** Steering toward nearby food: one turn of the loop that keeps the
    nearest food within the sensing radius.  The state is the pair
    [(min_d, target)]; [None] stands for [(inf, None)]. *)
Definition sense_step (c : t) (st : option (R * Food.t)) (f : Food.t)
  : option (R * Food.t) :=
  let d := (Food.x f - x c) ^ 2 + (Food.y f - y c) ^ 2 in
  let below := match st with
               | None => true
               | Some (min_d, _) => Rltb d min_d
               end in
  if below && Rleb d (CELL_SENSE_RADIUS ^ 2) then Some (d, f) else st.

Definition sense (c : t) (foods : list Food.t) : option Food.t :=
  option_map snd (fold_left (sense_step c) foods None).

(** [if not target: ... else: ...] *)
Definition steer (c : t) (target : option Food.t) : Rand t :=
  match target with
  | None =>
      r <- uniform (- (2 / 100)) (2 / 100) ;;
      ret (set_angle c (angle c + r))
  | Some tg =>
      let desired := atan2 (Food.y tg - y c) (Food.x tg - x c) in
      let diff := py_fmod (desired - angle c + PI) (2 * PI) - PI in
      let turn := py_max (- CELL_MAX_TURN) (py_min CELL_MAX_TURN diff) in
      ret (set_angle c (angle c + turn))
  end.

(** Move *)
Definition move (c : t) : t :=
  let c := set_x c (x c + cos (angle c) * speed c) in
  set_y c (y c + sin (angle c) * speed c).

(** Bounce off walls: four independent tests, in the order of the
    source; each one that fires draws a new heading. *)
Definition margin : R := 5.

Definition bounce (c : t) : Rand t :=
  c <- (if Rlt_dec (x c) margin
        then a <- uniform (- PI / 2) (PI / 2) ;;
             ret (set_angle (set_x c margin) a)
        else ret c) ;;
  c <- (if Rlt_dec (WIDTH - margin) (x c)
        then a <- uniform (PI / 2) (3 * PI / 2) ;;
             ret (set_angle (set_x c (WIDTH - margin)) a)
        else ret c) ;;
  c <- (if Rlt_dec (y c) margin
        then a <- uniform 0 PI ;;
             ret (set_angle (set_y c margin) a)
        else ret c) ;;
  (if Rlt_dec (HEIGHT - margin) (y c)
   then a <- uniform (- PI) 0 ;;
        ret (set_angle (set_y c (HEIGHT - margin)) a)
   else ret c).

(** Eating food: the test of the loop body, and the loop.  The loop
    answers the food list without the first item in range, or [None] when
    no item is in range. *)
Definition in_reach (c : t) (f : Food.t) : bool :=
  let dx := Food.x f - x c in
  let dy := Food.y f - y c in
  Rleb (dx * dx + dy * dy) (IZR ((radius c + FOOD_RADIUS) ^ 2)).

Fixpoint eat_scan (c : t) (foods : list Food.t) : option (list Food.t) :=
  match foods with
  | [] => None
  | f :: rest =>
      if in_reach c f then Some rest
      else option_map (cons f) (eat_scan c rest)
  end.

(** Everything [update] does before the eating loop (energy decay and
    clamp, steering, move, bounce, trail). *)
Definition advance_cell (c : t) (dt : R) (foods : list Food.t) : Rand t :=
  let c := set_energy c (energy c - ENERGY_LOSS_PER_SEC * dt) in
  let c := if Rlt_dec MAX_ENERGY (energy c)
           then set_energy c MAX_ENERGY else c in
  c <- steer c (sense c foods) ;;
  c <- bounce (move c) ;;
  ret (set_trail c (deque_append (trail c) (x c, y c))).

(** The whole method: the returned value (["ate"] or [None]), [self] and
    the [foods] list after the call.  [all_cells] and [time] are received
    and never read, as in the source. *)
Definition update (c : t) (dt : R) (foods : list Food.t)
           (all_cells : list t) (time : R)
  : Rand (option string * t * list Food.t) :=
  c <- advance_cell c dt foods ;;
  match eat_scan c foods with
  | Some foods' =>
      ret (Some "ate"%string,
           set_energy c (energy c + ENERGY_FROM_FOOD), foods')
  | None => ret (None, c, foods)
  end.

(** [can_split], [is_dead] *)
Definition can_split (c : t) : bool :=
  Rleb SPLIT_ENERGY_THRESHOLD (energy c)
  && (CELL_MIN_RADIUS + 1 <=? radius c)%Z.

Definition is_dead (c : t) : bool :=
  Rleb (energy c) 0 || (radius c <=? 0)%Z.

(** [split(self)]: the pair of the returned child ([None] when the split
    is abandoned) and of [self] after the call. *)
Definition split (c : t) : Rand (option t * t) :=
  let child_energy := energy c / 2 - SPLIT_ENERGY_COST / 2 in
  let c := set_energy c (energy c / 2 - SPLIT_ENERGY_COST / 2) in
  if Rlt_dec (energy c) 5 then
    ret (None, set_energy c (energy c + child_energy))
  else
    ox <- uniform (IZR (- radius c * 2)) (IZR (radius c * 2)) ;;
    oy <- uniform (IZR (- radius c * 2)) (IZR (radius c * 2)) ;;
    child <- init (x c + ox) (y c + oy)
               (Some (Z.max CELL_MIN_RADIUS
                        (py_int (IZR (radius c) * (9 / 10))))) ;;
    let child := set_energy child (py_max 5 child_energy) in
    j0 <- randint (-20) 20 ;;
    j1 <- randint (-20) 20 ;;
    j2 <- randint (-20) 20 ;;
    let '(r0, g0, b0) := color c in
    let child :=
      set_color child
        (Z.min 255 (Z.max 0 (r0 + j0)),
         Z.min 255 (Z.max 0 (g0 + j1)),
         Z.min 255 (Z.max 0 (b0 + j2)))%Z in
    ret (Some child, c).

(** [draw(self, surf, time)]: its only effect on the simulation state is
    the breathing radius. *)
Definition draw (c : t) (time : R) : t :=
  let breathe := 1 + 8 / 100 * sin (time * 3 + time_offset c) in
  set_radius c (py_int (IZR (base_radius c) * breathe)).

(** The energy bar of [draw], computed after the radius assignment: the
    pair [(bar_w, fill_w)]. *)
Definition energy_bar (c : t) : Z * Z :=
  let bar_w := py_int (IZR (radius c) * (18 / 10)) in
  let fill_w :=
    py_int (IZR bar_w
            * (py_max 0 (py_min MAX_ENERGY (energy c)) / MAX_ENERGY)) in
  (bar_w, fill_w).

End Cell.

(* -------------------- SIMULATION -------------------- *)

(** The module-level variables of the simulation. *)
Record World : Type := mkWorld {
  cells : list Cell.t;
  foods : list Food.t;
  total_births : Z;
  paused : bool;
  speed_multiplier : R;
  time_accum : R;
  running : bool
}.

(** The pygame events the loop distinguishes. *)
Inductive Key : Type :=
  K_SPACE | K_UP | K_DOWN | K_r | K_f | K_other.

Inductive Event : Type :=
| QUIT
| KEYDOWN (key : Key)
| MOUSEBUTTONDOWN (button : Z) (pos : Z * Z)
| OTHER.

(** [Cell(random.uniform(50, WIDTH-50), random.uniform(50, HEIGHT-50))] *)
Definition seed_cell : Rand Cell.t :=
  x0 <- uniform 50 (WIDTH - 50) ;;
  y0 <- uniform 50 (HEIGHT - 50) ;;
  Cell.init x0 y0 None.

(** [Food(random.uniform(20, WIDTH-20), random.uniform(20, HEIGHT-20))] *)
Definition random_food : Rand Food.t :=
  x0 <- uniform 20 (WIDTH - 20) ;;
  y0 <- uniform 20 (HEIGHT - 20) ;;
  ret (Food.mk x0 y0).

(** One turn of [for event in pygame.event.get()]. *)
Definition handle_event (w : World) (e : Event) : Rand World :=
  match e with
  | QUIT =>
      ret (mkWorld (cells w) (foods w) (total_births w) (paused w)
             (speed_multiplier w) (time_accum w) false)
  | KEYDOWN K_SPACE =>
      ret (mkWorld (cells w) (foods w) (total_births w) (negb (paused w))
             (speed_multiplier w) (time_accum w) (running w))
  | KEYDOWN K_UP =>
      ret (mkWorld (cells w) (foods w) (total_births w) (paused w)
             (py_min 4 (speed_multiplier w + 25 / 100))
             (time_accum w) (running w))
  | KEYDOWN K_DOWN =>
      ret (mkWorld (cells w) (foods w) (total_births w) (paused w)
             (py_max (25 / 100) (speed_multiplier w - 25 / 100))
             (time_accum w) (running w))
  | KEYDOWN K_r =>
      cs <- repeatM INITIAL_CELLS seed_cell ;;
      ret (mkWorld cs [] 0%Z (paused w)
             (speed_multiplier w) (time_accum w) (running w))
  | KEYDOWN K_f =>
      fs <- repeatM 10 random_food ;;
      ret (mkWorld (cells w) (foods w ++ fs) (total_births w) (paused w)
             (speed_multiplier w) (time_accum w) (running w))
  | KEYDOWN K_other => ret w
  | MOUSEBUTTONDOWN button (mx, my) =>
      if (button =? 1)%Z then
        ret (mkWorld (cells w) (foods w ++ [Food.mk (IZR mx) (IZR my)])
               (total_births w) (paused w)
               (speed_multiplier w) (time_accum w) (running w))
      else ret w
  | OTHER => ret w
  end.

Fixpoint handle_events (w : World) (es : list Event) : Rand World :=
  match es with
  | [] => ret w
  | e :: rest => w' <- handle_event w e ;; handle_events w' rest
  end.

(** The variables of the per-cell pass ([if not paused:] block). *)
Record Pass : Type := mkPass {
  p_cells : list Cell.t;        (* [cells]: the objects, mutated in place *)
  p_foods : list Food.t;        (* [foods], shared with every [update] *)
  new_cells : list Cell.t;
  dead_indices : list nat;
  p_births : Z
}.

(** Writing back the object at position [i] of a list. *)
Fixpoint list_set {A : Type} (l : list A) (i : nat) (v : A) : list A :=
  match l, i with
  | [], _ => []
  | _ :: rest, O => v :: rest
  | a :: rest, S i' => a :: list_set rest i' v
  end.

(** [if c.can_split() and random.random() < 0.02: ...]: the draw is made
    only when [can_split] holds.  Returns the cell after the attempt and the
    child, if one was born. *)
Definition try_split (c : Cell.t) : Rand (option Cell.t * Cell.t) :=
  if Cell.can_split c then
    u <- random ;;
    if Rltb u (2 / 100) then Cell.split c else ret (None, c)
  else ret (None, c).

(** The body of [for i, c in enumerate(cells)]. *)
Definition cell_step (dt time : R) (st : Pass) (i : nat) : Rand Pass :=
  match nth_error (p_cells st) i with
  | None => ret st
  | Some c =>
      '(result, c, foods') <- Cell.update c dt (p_foods st) (p_cells st) time ;;
      '(child, c) <- try_split c ;;
      let new_cells' := match child with
                        | Some ch => new_cells st ++ [ch]
                        | None => new_cells st
                        end in
      let births' := match child with
                     | Some _ => (p_births st + 1)%Z
                     | None => p_births st
                     end in
      let dead' := if Cell.is_dead c
                   then dead_indices st ++ [i] else dead_indices st in
      ret (mkPass (list_set (p_cells st) i c) foods' new_cells' dead' births')
  end.

Fixpoint for_each (dt time : R) (st : Pass) (idxs : list nat) : Rand Pass :=
  match idxs with
  | [] => ret st
  | i :: rest => st' <- cell_step dt time st i ;; for_each dt time st' rest
  end.

Definition cell_pass (dt time : R) (cs : list Cell.t) (fs : list Food.t)
           (births : Z) : Rand Pass :=
  for_each dt time (mkPass cs fs [] [] births) (seq 0 (List.length cs)).

(** [[c for idx, c in enumerate(cells) if idx not in dead_indices]] *)
Definition enumerate {A : Type} (l : list A) : list (nat * A) :=
  combine (seq 0 (List.length l)) l.

Definition drop_dead (cs : list Cell.t) (dead : list nat) : list Cell.t :=
  map snd
    (filter (fun ic => negb (existsb (Nat.eqb (fst ic)) dead)) (enumerate cs)).

(** The [if not paused:] block: the pass, then the removal of the dead and
    the arrival of the newborn. *)
Definition tick (dt : R) (w : World) : Rand World :=
  st <- cell_pass dt (time_accum w) (cells w) (foods w) (total_births w) ;;
  let survivors := match dead_indices st with
                   | [] => p_cells st
                   | _ :: _ => drop_dead (p_cells st) (dead_indices st)
                   end in
  ret (mkWorld (survivors ++ new_cells st) (p_foods st) (p_births st)
         (paused w) (speed_multiplier w) (time_accum w) (running w)).

(** One turn of [while running]: [dt_ms] is the value of
    [clock.tick(FPS)], [events] the list [pygame.event.get()] returns. *)
Definition frame (dt_ms : Z) (events : list Event) (w : World) : Rand World :=
  let dt := IZR dt_ms / 1000 * speed_multiplier w in
  let w := mkWorld (cells w) (foods w) (total_births w) (paused w)
             (speed_multiplier w) (time_accum w + dt) (running w) in
  w <- handle_events w events ;;
  w <- (if paused w then ret w else tick dt w) ;;
  ret (mkWorld (map (fun c => Cell.draw c (time_accum w)) (cells w))
         (foods w) (total_births w) (paused w)
         (speed_multiplier w) (time_accum w) (running w)).

(** The loop, over the recorded inputs of successive frames. *)
Fixpoint main_loop (inputs : list (Z * list Event)) (w : World) : Rand World :=
  match inputs with
  | [] => ret w
  | (dt_ms, events) :: rest =>
      if running w then w' <- frame dt_ms events w ;; main_loop rest w'
      else ret w
  end.

(** Reading the parts of what [update] returns. *)
Definition signal_of (r : option string * Cell.t * list Food.t * Rng)
  : option string := fst (fst (fst r)).
Definition cell_of (r : option string * Cell.t * list Food.t * Rng)
  : Cell.t := snd (fst (fst r)).
Definition foods_of (r : option string * Cell.t * list Food.t * Rng)
  : list Food.t := snd (fst r).

(** Sample states, used to run the code on concrete inputs: a generator
    whose every draw is the middle of its range, and a cell of radius 10
    (speed [1 + 8/36]) with a chosen position, heading and energy. *)
Definition rng_mid : Rng := mkRng (fun _ => 1 / 2) (fun _ => 0%Z) 0.

Definition sample_cell (x0 y0 heading e : R) : Cell.t :=
  Cell.mk x0 y0 10 10 heading (11 / 9) e (200, 120, 80)%Z [] 0.

(** Two sample cells on either side of a food item at (451, 300), a cell
    on the left margin heading left, and a world holding one item more than
    [MAX_FOOD]. *)
Definition left_cell : Cell.t := sample_cell 450 300 0 50.
Definition right_cell : Cell.t := sample_cell 452 300 PI 50.
Definition shared_food : Food.t := Food.mk 451 300.
Definition wall_cell : Cell.t := sample_cell 5 300 PI 50.
(** A cell too poor to split, and a well-fed cell sitting on a food item. *)
Definition low_cell : Cell.t := sample_cell 450 300 0 20.
Definition fed_cell : Cell.t := sample_cell 450 300 0 90.
Definition full_world : World :=
  mkWorld [left_cell] (repeat shared_food 201) 0 false 1 0 true.

(** The attributes [update] has no assignment to. *)
Definition same_body (c c' : Cell.t) : Prop :=
  Cell.radius c' = Cell.radius c
  /\ Cell.base_radius c' = Cell.base_radius c
  /\ Cell.speed c' = Cell.speed c
  /\ Cell.color c' = Cell.color c
  /\ Cell.time_offset c' = Cell.time_offset c.

(** The position lies within the margins of the world rectangle. *)
Definition inside (px py : R) : Prop :=
  Cell.margin <= px <= WIDTH - Cell.margin
  /\ Cell.margin <= py <= HEIGHT - Cell.margin.

Definition strictly_inside (px py : R) : Prop :=
  Cell.margin < px < WIDTH - Cell.margin
  /\ Cell.margin < py < HEIGHT - Cell.margin.

(** The energy after the first two statements of [update]. *)
Definition decayed (e dt : R) : R :=
  if Rlt_dec MAX_ENERGY (e - ENERGY_LOSS_PER_SEC * dt)
  then MAX_ENERGY else e - ENERGY_LOSS_PER_SEC * dt.

(** The state of the pass when the cells of index below [k] have been
    processed, [cells0] being the list the pass started from: the list has
    kept its length and, cell by cell, the attributes [update] does not
    assign; the processed cells carry the mark of [update] (a trail that is
    not empty); [dead_indices] holds just the indices of the processed cells
    that are dead; the children hold no trail and are alive. *)
Definition pass_inv (cells0 : list Cell.t) (k : nat) (st : Pass) : Prop :=
  List.length (p_cells st) = List.length cells0
  /\ (forall j c0, nth_error cells0 j = Some c0 ->
        exists c, nth_error (p_cells st) j = Some c
                  /\ same_body c0 c
                  /\ ((j < k)%nat -> Cell.trail c <> []))
  /\ (forall j, In j (dead_indices st) <->
                (j < k)%nat
                /\ exists c, nth_error (p_cells st) j = Some c
                             /\ Cell.is_dead c = true)
  /\ Forall (fun ch => Cell.trail ch = [] /\ Cell.is_dead ch = false)
            (new_cells st).

(** The squared distance from a cell to a food item, as the sensing and
    eating loops compute it. *)
Definition sq_dist (c : Cell.t) (f : Food.t) : R :=
  (Food.x f - Cell.x c) ^ 2 + (Food.y f - Cell.y c) ^ 2.

(** A color whose three channels are valid bytes. *)
Definition valid_color (col : Z * Z * Z) : Prop :=
  let '(r0, g0, b0) := col in
  (0 <= r0 <= 255 /\ 0 <= g0 <= 255 /\ 0 <= b0 <= 255)%Z.

(** What the two tests of the bounce do to one coordinate. *)
Definition clamp (lo hi v : R) : R :=
  if Rlt_dec v lo then lo else if Rlt_dec hi v then hi else v.

(** Two colors whose channels differ by at most [d]. *)
Definition color_near (d : Z) (a b : Z * Z * Z) : Prop :=
  let '(a0, a1, a2) := a in
  let '(b0, b1, b2) := b in
  (Z.abs (b0 - a0) <= d /\ Z.abs (b1 - a1) <= d /\ Z.abs (b2 - a2) <= d)%Z.

(** Two generator states over the same oracle: only the number of draws
    made may differ. *)
Definition same_oracle (g g' : Rng) : Prop :=
  unit_src g' = unit_src g /\ int_src g' = int_src g.

(** What [Cell.__init__] guarantees when it draws the radius itself. *)
Definition fresh_cell (c : Cell.t) : Prop :=
  (CELL_MIN_RADIUS <= Cell.radius c <= CELL_MAX_RADIUS)%Z
  /\ Cell.base_radius c = Cell.radius c
  /\ 1 <= Cell.speed c <= 1 + 10 / 36
  /\ 20 <= Cell.energy c <= 50
  /\ 0 <= Cell.angle c <= 2 * PI
  /\ Cell.trail c = []
  /\ (let '(r0, g0, b0) := Cell.color c in
      80 <= r0 <= 255 /\ 80 <= g0 <= 255 /\ 80 <= b0 <= 255)%Z.

(** The turn steering adds to the heading of a cell that has the target
    [tg]: the expression [turn] of [update]. *)
Definition turn_toward (c : Cell.t) (tg : Food.t) : R :=
  let desired := atan2 (Food.y tg - Cell.y c) (Food.x tg - Cell.x c) in
  let diff := py_fmod (desired - Cell.angle c + PI) (2 * PI) - PI in
  py_max (- CELL_MAX_TURN) (py_min CELL_MAX_TURN diff).

(** The cell after steering toward [tg] and the move, before the wall
    tests. *)
Definition steered_step (c : Cell.t) (tg : Food.t) : Cell.t :=
  Cell.move (Cell.set_angle c (Cell.angle c + turn_toward c tg)).



(** The pass when the cells of index below [k] have been processed. *)
Definition pass_prefix (dt time : R) (cs : list Cell.t) (fs : list Food.t)
           (births : Z) (k : nat) : Rand Pass :=
  for_each dt time (mkPass cs fs [] [] births) (seq 0 k).

(** The child the split attempt of the loop appends for the updated cell
    [u] under the generator [h]: the one [split] returns, when [can_split]
    holds and the draw is below 0.02. *)
Definition child_of_attempt (u : Cell.t) (h : Rng) : option Cell.t :=
  if Cell.can_split u && Rltb (unit_src h (draws h)) (2 / 100)
  then fst (fst (Cell.split u (advance h)))
  else None.

(** More sample states: a cell heading away from a food item 50 units
    behind it, and two hungry cells on either side of [shared_food]. *)
Definition behind_cell : Cell.t := sample_cell 450 300 PI 50.

(* ==================== PROPERTIES ==================== *)

(** The functions of analysis are used through their lemmas, never
    unfolded. *)
#[local] Opaque PI cos sin atan up Zfloor Zceil.

(** ** Comparisons *)

Lemma Rltb_true (a b : R) : Rltb a b = true <-> a < b.
Proof. unfold Rltb; destruct (Rlt_dec a b); split; intros; auto; discriminate. Qed.

Lemma Rltb_false (a b : R) : Rltb a b = false <-> b <= a.
Proof.
  unfold Rltb; destruct (Rlt_dec a b); split; intros; auto; try discriminate; lra.
Qed.

Lemma Rleb_true (a b : R) : Rleb a b = true <-> a <= b.
Proof. unfold Rleb; destruct (Rle_dec a b); split; intros; auto; discriminate. Qed.

Lemma Rleb_false (a b : R) : Rleb a b = false <-> b < a.
Proof.
  unfold Rleb; destruct (Rle_dec a b); split; intros; auto; try discriminate; lra.
Qed.

Lemma py_max_lower (a b : R) : a <= py_max a b.
Proof. unfold py_max; destruct (Rlt_dec a b); lra. Qed.

Lemma py_max_id (a b : R) : a <= b -> py_max a b = b.
Proof. unfold py_max; destruct (Rlt_dec a b); lra. Qed.

(** Running a computation: its value and the generator it leaves. *)
Ltac run := unfold bind, ret, uniform, random, randint, advance; simpl.

(** ** [Cell.split] *)

(** The split that goes through, for any cell: the child returned has the
    energy [max(5, energy/2 - cost/2)], the parent is left with
    [energy/2 - cost/2]. *)
Lemma split_done (c : Cell.t) (g : Rng) :
  ~ Cell.energy c / 2 - SPLIT_ENERGY_COST / 2 < 5 ->
  exists child g',
    Cell.split c g =
      (Some child,
       Cell.set_energy c (Cell.energy c / 2 - SPLIT_ENERGY_COST / 2), g')
    /\ Cell.energy child
       = py_max 5 (Cell.energy c / 2 - SPLIT_ENERGY_COST / 2)
    /\ Cell.trail child = []
    /\ Cell.radius child
       = Z.max CELL_MIN_RADIUS (py_int (IZR (Cell.radius c) * (9 / 10))).
Proof.
  intros H. unfold Cell.split. simpl.
  destruct (Rlt_dec _ 5) as [L | _]; [contradiction |].
  unfold Cell.init.
  assert (E : (Z.max CELL_MIN_RADIUS (py_int (IZR (Cell.radius c) * (9 / 10)))
               =? 0)%Z = false).
  { apply Z.eqb_neq. unfold CELL_MIN_RADIUS. lia. }
  rewrite E. run.
  destruct (Cell.color c) as [[r0 g0] b0]. simpl.
  eexists; eexists; repeat split.
Qed.

Lemma split_cases (c : Cell.t) (g : Rng) (o : option Cell.t) (c' : Cell.t)
      (g' : Rng) :
  Cell.split c g = (o, c', g') ->
  (o = None /\ Cell.energy c / 2 - SPLIT_ENERGY_COST / 2 < 5
   /\ c' = Cell.set_energy c (Cell.energy c - SPLIT_ENERGY_COST) /\ g' = g)
  \/ (exists child, o = Some child
      /\ ~ Cell.energy c / 2 - SPLIT_ENERGY_COST / 2 < 5
      /\ c' = Cell.set_energy c (Cell.energy c / 2 - SPLIT_ENERGY_COST / 2)
      /\ Cell.energy child
         = py_max 5 (Cell.energy c / 2 - SPLIT_ENERGY_COST / 2)
      /\ Cell.trail child = []
      /\ Cell.radius child
         = Z.max CELL_MIN_RADIUS (py_int (IZR (Cell.radius c) * (9 / 10)))).
Proof.
  intros E.
  destruct (Rlt_dec (Cell.energy c / 2 - SPLIT_ENERGY_COST / 2) 5) as [L | N].
  - left. unfold Cell.split in E. cbn [Cell.energy Cell.set_energy] in E.
    destruct (Rlt_dec _ 5) as [_ | N]; [| contradiction].
    unfold ret in E. inversion E; subst o c' g'.
    split; [reflexivity |]. split; [exact L |]. split; [| reflexivity].
    destruct c as [cx cy r br a s e col tr off].
    unfold Cell.set_energy.
    cbn [Cell.x Cell.y Cell.radius Cell.base_radius Cell.angle Cell.speed
         Cell.energy Cell.color Cell.trail Cell.time_offset].
    f_equal. lra.
  - right. destruct (split_done c g N) as (child & g1 & E1 & He & Ht & Hr).
    rewrite E1 in E. inversion E; subst. exists child. auto 10.
Qed.

(** C1 (as stated, refuted).  [split] on a cell of energy 20, whose
    post-split energy 20/2 - 30/2 = -5 is below 5: no child is returned, but
    the energy left is -10, not the 20 the cell had. *)
Lemma split_abort_not_refunded :
  Cell.energy low_cell / 2 - SPLIT_ENERGY_COST / 2 < 5
  /\ fst (fst (Cell.split low_cell rng_mid)) = None
  /\ Cell.energy (snd (fst (Cell.split low_cell rng_mid))) = -10
  /\ Cell.energy (snd (fst (Cell.split low_cell rng_mid)))
     <> Cell.energy low_cell.
Proof.
  assert (H : Cell.energy low_cell / 2 - SPLIT_ENERGY_COST / 2 < 5)
    by (unfold SPLIT_ENERGY_COST; simpl; lra).
  split; [exact H |].
  destruct (Cell.split low_cell rng_mid) as [[o c'] g'] eqn:E.
  apply split_cases in E. cbn [fst snd].
  destruct E as [(-> & _ & -> & _) | (child & _ & N & _)]; [| contradiction].
  unfold SPLIT_ENERGY_COST. simpl. repeat split; lra.
Qed.

(** C1 (amended).  For every cell whose post-split energy
    [energy/2 - SPLIT_ENERGY_COST/2] would fall below 5, [split] returns no
    child, draws nothing, and leaves the cell with its energy before the
    call less [SPLIT_ENERGY_COST]: the child's share is added back, the
    reproduction cost stays deducted.  Nothing else of the cell changes. *)
Theorem split_abort_keeps_cost (c : Cell.t) (g : Rng) :
  Cell.energy c / 2 - SPLIT_ENERGY_COST / 2 < 5 ->
  Cell.split c g
  = (None, Cell.set_energy c (Cell.energy c - SPLIT_ENERGY_COST), g).
Proof.
  intros H. unfold Cell.split.
  cbn [Cell.energy Cell.set_energy].
  destruct (Rlt_dec _ 5) as [_ | N]; [| contradiction].
  destruct c as [cx cy r br a s e col tr off].
  unfold ret, Cell.set_energy.
  cbn [Cell.x Cell.y Cell.radius Cell.base_radius Cell.angle Cell.speed
       Cell.energy Cell.color Cell.trail Cell.time_offset].
  do 3 f_equal. lra.
Qed.

Lemma split_abort_keeps_cost_witness :
  Cell.split low_cell rng_mid
  = (None, Cell.set_energy low_cell (Cell.energy low_cell - SPLIT_ENERGY_COST),
     rng_mid).
Proof.
  apply (split_abort_keeps_cost low_cell rng_mid).
  unfold SPLIT_ENERGY_COST; simpl; lra.
Defined.

(** C5.  [split] on a cell whose energy is exactly 60 goes through: a child
    is returned, its energy is 15, and the parent is left with 15. *)
Theorem split_at_threshold (c : Cell.t) (g : Rng) :
  Cell.energy c = SPLIT_ENERGY_THRESHOLD ->
  exists child c' g',
    Cell.split c g = (Some child, c', g')
    /\ Cell.energy child = 15
    /\ Cell.energy c' = 15.
Proof.
  unfold SPLIT_ENERGY_THRESHOLD. intros H.
  destruct (split_done c g) as (child & g' & E & He & _).
  - rewrite H. unfold SPLIT_ENERGY_COST. lra.
  - exists child, (Cell.set_energy c (Cell.energy c / 2 - SPLIT_ENERGY_COST / 2)), g'.
    split; [exact E |]. rewrite He, H. unfold SPLIT_ENERGY_COST. simpl.
    split; [| lra]. rewrite py_max_id; lra.
Qed.

Lemma split_at_threshold_witness :
  exists child c' g',
    Cell.split (sample_cell 450 300 0 60) rng_mid = (Some child, c', g')
    /\ Cell.energy child = 15
    /\ Cell.energy c' = 15.
Proof. apply (split_at_threshold (sample_cell 450 300 0 60) rng_mid). reflexivity. Defined.

(** C9.  Whenever [split] returns a child, the child's energy equals the
    energy the parent is left with, and that common value
    [energy/2 - SPLIT_ENERGY_COST/2] is at least 5, so the [max(5, ...)]
    applied to the child changes nothing. *)
Theorem split_child_energy_eq_parent (c : Cell.t) (g : Rng)
        (child c' : Cell.t) (g' : Rng) :
  Cell.split c g = (Some child, c', g') ->
  Cell.energy child = Cell.energy c'
  /\ Cell.energy c' = Cell.energy c / 2 - SPLIT_ENERGY_COST / 2
  /\ 5 <= Cell.energy c'.
Proof.
  intros E. apply split_cases in E.
  destruct E as [(D & _) | (ch & D & N & Ec & He & _)]; [discriminate |].
  inversion D; subst ch. subst c'. simpl. rewrite He.
  split; [| split]; try reflexivity; try lra.
  apply py_max_id. lra.
Qed.

Lemma split_child_energy_eq_parent_witness :
  exists child c' g',
    Cell.split (sample_cell 450 300 0 65) rng_mid = (Some child, c', g')
    /\ Cell.energy child = Cell.energy c'
    /\ Cell.energy c' = 35 / 2.
Proof.
  destruct (split_done (sample_cell 450 300 0 65) rng_mid)
    as (child & g' & E & _).
  - unfold SPLIT_ENERGY_COST; simpl; lra.
  - exists child, (Cell.set_energy (sample_cell 450 300 0 65)
                     (Cell.energy (sample_cell 450 300 0 65) / 2
                      - SPLIT_ENERGY_COST / 2)), g'.
    split; [exact E |].
    destruct (split_child_energy_eq_parent _ _ _ _ _ E) as (H1 & H2 & _).
    split; [exact H1 |]. rewrite H2. unfold SPLIT_ENERGY_COST; simpl; lra.
Defined.

(** ** [Cell.update], phase by phase *)

Ltac setters :=
  cbv beta iota delta
    [Cell.set_x Cell.set_y Cell.set_angle Cell.set_energy Cell.set_trail
     Cell.set_radius Cell.set_color
     Cell.x Cell.y Cell.radius Cell.base_radius Cell.angle Cell.speed
     Cell.energy Cell.color Cell.trail Cell.time_offset].

Ltac case_walls :=
  repeat match goal with
         | |- context [Rlt_dec ?a ?b] => destruct (Rlt_dec a b); simpl
         end.

(** Bounce: only the position and the heading are assigned; the position
    ends within the margins; a cell already within them is left alone and
    nothing is drawn. *)
Lemma bounce_shape (c : Cell.t) (g : Rng) :
  exists x' y' a' g',
    Cell.bounce c g
    = (Cell.set_angle (Cell.set_y (Cell.set_x c x') y') a', g')
    /\ inside x' y'
    /\ (inside (Cell.x c) (Cell.y c) \/ strictly_inside x' y' ->
        x' = Cell.x c /\ y' = Cell.y c /\ a' = Cell.angle c /\ g' = g).
Proof.
  destruct c as [cx cy r br a s e col tr off].
  unfold Cell.bounce, inside, strictly_inside, Cell.margin, WIDTH, HEIGHT. run.
  case_walls; setters;
    do 4 eexists; (split; [reflexivity |]); simpl; split; try lra;
    intros [[? ?] | [? ?]]; try lra; auto.
Qed.

(** Steering: only the heading is assigned; with a target, nothing is
    drawn and the turn is at most [CELL_MAX_TURN] either way. *)
Lemma steer_shape (c : Cell.t) (target : option Food.t) (g : Rng) :
  exists a' g',
    Cell.steer c target g = (Cell.set_angle c a', g')
    /\ (target <> None ->
        g' = g /\ - CELL_MAX_TURN <= a' - Cell.angle c <= CELL_MAX_TURN).
Proof.
  destruct c as [cx cy r br a s e col tr off].
  destruct target as [tg |]; unfold Cell.steer; run; setters.
  - do 2 eexists; split; [reflexivity |]. intros _. split; [reflexivity |].
    unfold py_max, py_min, CELL_MAX_TURN.
    repeat match goal with
           | |- context [Rlt_dec ?a ?b] => destruct (Rlt_dec a b)
           end; lra.
  - do 2 eexists; split; [reflexivity |]. intros N. congruence.
Qed.

(** Sensing reads the position of the cell and nothing else. *)
Lemma sense_position (c c' : Cell.t) (fs : list Food.t) :
  Cell.x c' = Cell.x c -> Cell.y c' = Cell.y c ->
  Cell.sense c' fs = Cell.sense c fs.
Proof.
  intros Hx Hy. unfold Cell.sense. f_equal.
  generalize (@None (R * Food.t)).
  induction fs as [| f fs IH]; intros st; simpl; [reflexivity |].
  rewrite IH. f_equal. unfold Cell.sense_step. rewrite Hx, Hy. reflexivity.
Qed.

(** The first two statements of [update]. *)
Lemma decay_shape (c : Cell.t) (dt : R) :
  (let c1 := Cell.set_energy c (Cell.energy c - ENERGY_LOSS_PER_SEC * dt) in
   if Rlt_dec MAX_ENERGY (Cell.energy c1)
   then Cell.set_energy c1 MAX_ENERGY else c1)
  = Cell.set_energy c (decayed (Cell.energy c) dt).
Proof.
  destruct c as [cx cy r br a s e col tr off]. unfold decayed. simpl.
  destruct (Rlt_dec MAX_ENERGY _); reflexivity.
Qed.

Lemma decayed_le_max (e dt : R) : decayed e dt <= MAX_ENERGY.
Proof. unfold decayed. destruct (Rlt_dec MAX_ENERGY _); lra. Qed.

(** What [update] has done to the cell when it reaches the eating loop:
    [a1] is the heading steering gives, [(x', y')] and [a'] the position and
    heading the bounce leaves.  The bounce changes nothing when the moved
    position is within the margins, and it has changed nothing when the
    final position is strictly within them. *)
Lemma advance_cell_shape (c : Cell.t) (dt : R) (fs : list Food.t) (g : Rng) :
  exists a1 g1 x' y' a' g',
    Cell.advance_cell c dt fs g
    = (Cell.mk x' y' (Cell.radius c) (Cell.base_radius c) a' (Cell.speed c)
         (decayed (Cell.energy c) dt) (Cell.color c)
         (Cell.deque_append (Cell.trail c) (x', y')) (Cell.time_offset c), g')
    /\ inside x' y'
    /\ (Cell.sense c fs <> None ->
        g1 = g /\ - CELL_MAX_TURN <= a1 - Cell.angle c <= CELL_MAX_TURN)
    /\ (inside (Cell.x c + cos a1 * Cell.speed c)
               (Cell.y c + sin a1 * Cell.speed c)
        \/ strictly_inside x' y' ->
        x' = Cell.x c + cos a1 * Cell.speed c
        /\ y' = Cell.y c + sin a1 * Cell.speed c
        /\ a' = a1 /\ g' = g1).
Proof.
  unfold Cell.advance_cell. rewrite decay_shape.
  set (c1 := Cell.set_energy c (decayed (Cell.energy c) dt)).
  assert (Hs : Cell.sense c1 fs = Cell.sense c fs)
    by (apply sense_position; reflexivity).
  unfold bind at 1.
  destruct (steer_shape c1 (Cell.sense c1 fs) g) as (a1 & g1 & Es & Ht).
  rewrite Es. unfold bind at 1.
  destruct (bounce_shape (Cell.move (Cell.set_angle c1 a1)) g1)
    as (x' & y' & a' & g' & Eb & Hin & Hfree).
  rewrite Eb. exists a1, g1, x', y', a', g'.
  rewrite Hs in Ht.
  subst c1. destruct c as [cx cy r br a s e col tr off].
  simpl in *. auto.
Qed.

(** The eating loop: either an item in reach exists and the first one is
    taken out, or none is in reach and the list is untouched. *)
Lemma eat_scan_some (c : Cell.t) (fs fs' : list Food.t) :
  Cell.eat_scan c fs = Some fs' ->
  exists l1 f l2,
    fs = l1 ++ f :: l2 /\ fs' = l1 ++ l2
    /\ Cell.in_reach c f = true
    /\ Forall (fun f' => Cell.in_reach c f' = false) l1.
Proof.
  revert fs'. induction fs as [| f fs IH]; intros fs' E; simpl in E.
  - discriminate.
  - destruct (Cell.in_reach c f) eqn:Hf.
    + inversion E; subst. exists [], f, fs'. auto.
    + destruct (Cell.eat_scan c fs) as [r |]; [| discriminate].
      simpl in E. inversion E; subst.
      destruct (IH r eq_refl) as (l1 & f0 & l2 & -> & -> & H0 & Hl).
      exists (f :: l1), f0, l2. auto.
Qed.



(** [update] as a whole: the cell of [advance_cell], fed or not. *)
Lemma update_unfold (c : Cell.t) (dt : R) (fs : list Food.t)
      (all_cells : list Cell.t) (time : R) (g : Rng) :
  Cell.update c dt fs all_cells time g
  = let c1 := fst (Cell.advance_cell c dt fs g) in
    let g1 := snd (Cell.advance_cell c dt fs g) in
    match Cell.eat_scan c1 fs with
    | Some fs' =>
        (Some "ate"%string,
         Cell.set_energy c1 (Cell.energy c1 + ENERGY_FROM_FOOD), fs', g1)
    | None => (None, c1, fs, g1)
    end.
Proof.
  unfold Cell.update, bind.
  destruct (Cell.advance_cell c dt fs g) as [c1 g1]. simpl.
  destruct (Cell.eat_scan c1 fs); reflexivity.
Qed.

(** The eating loop assigns the energy only: position, heading and trail
    are those the cell had on reaching it. *)
Lemma update_keeps_advance (c : Cell.t) (dt : R) (fs : list Food.t)
      (all_cells : list Cell.t) (time : R) (g : Rng) :
  let a := fst (Cell.advance_cell c dt fs g) in
  let c' := cell_of (Cell.update c dt fs all_cells time g) in
  Cell.x c' = Cell.x a /\ Cell.y c' = Cell.y a
  /\ Cell.angle c' = Cell.angle a /\ Cell.trail c' = Cell.trail a.
Proof.
  rewrite update_unfold. cbv zeta.
  destruct (Cell.eat_scan _ fs); unfold cell_of; cbn [fst snd]; auto.
Qed.

(** The energy [update] leaves: the decayed and clamped energy, plus
    [ENERGY_FROM_FOOD] exactly when the call answers ["ate"]. *)
Lemma update_energy (c : Cell.t) (dt : R) (fs : list Food.t)
      (all_cells : list Cell.t) (time : R) (g : Rng) :
  let r := Cell.update c dt fs all_cells time g in
  (signal_of r = None
   /\ Cell.energy (cell_of r) = decayed (Cell.energy c) dt)
  \/ (signal_of r = Some "ate"%string
      /\ Cell.energy (cell_of r)
         = decayed (Cell.energy c) dt + ENERGY_FROM_FOOD).
Proof.
  rewrite update_unfold.
  destruct (advance_cell_shape c dt fs g)
    as (a1 & g1 & x' & y' & a' & g' & E & _).
  rewrite E. simpl.
  destruct (Cell.eat_scan _ fs); [right | left]; split; reflexivity.
Qed.

(** A sample cell well inside the world reaches, after its move, any food
    item within 5 units of where it started on each axis. *)
Lemma sample_cell_reach (x0 y0 h e dt : R) (fs : list Food.t) (g : Rng)
      (f : Food.t) :
  10 <= x0 <= 890 -> 10 <= y0 <= 590 ->
  -5 <= Food.x f - x0 <= 5 -> -5 <= Food.y f - y0 <= 5 ->
  Cell.in_reach (fst (Cell.advance_cell (sample_cell x0 y0 h e) dt fs g)) f
  = true.
Proof.
  intros Hx Hy Hfx Hfy.
  destruct (advance_cell_shape (sample_cell x0 y0 h e) dt fs g)
    as (a1 & g1 & x' & y' & a' & g' & E & _ & _ & Hfree).
  pose proof (COS_bound a1) as Hc. pose proof (SIN_bound a1) as Hs.
  destruct Hfree as (Ex & Ey & _).
  { left. unfold inside, Cell.margin, WIDTH, HEIGHT. simpl. lra. }
  rewrite E. simpl in *. subst x' y'.
  unfold Cell.in_reach. apply Rleb_true. simpl.
  destruct f as [fx fy]; simpl in *. nra.
Qed.

(** C2 (as stated, refuted).  A cell of energy 90 sitting on a food item,
    updated with [dt] = 16 ms: the clamp to [MAX_ENERGY] runs before the
    eating loop, the loop then adds [ENERGY_FROM_FOOD], and [update] returns
    with energy 109.984, above [MAX_ENERGY]. *)
Lemma update_eating_exceeds_max :
  signal_of (Cell.update fed_cell (16 / 1000) [Food.mk 450 300]
               [fed_cell] 0 rng_mid) = Some "ate"%string
  /\ Cell.energy (cell_of (Cell.update fed_cell (16 / 1000) [Food.mk 450 300]
                             [fed_cell] 0 rng_mid)) = 109984 / 1000
  /\ MAX_ENERGY
     < Cell.energy (cell_of (Cell.update fed_cell (16 / 1000)
                               [Food.mk 450 300] [fed_cell] 0 rng_mid)).
Proof.
  rewrite update_unfold.
  pose proof (sample_cell_reach 450 300 0 90 (16 / 1000) [Food.mk 450 300]
                rng_mid (Food.mk 450 300)) as Hr.
  fold fed_cell in Hr.
  destruct (advance_cell_shape fed_cell (16 / 1000) [Food.mk 450 300] rng_mid)
    as (a1 & g1 & x' & y' & a' & g' & E & _).
  rewrite E in *. simpl in Hr. simpl.
  rewrite Hr by lra. unfold signal_of, cell_of; simpl.
  assert (Hd : decayed 90 (16 / 1000) = 89984 / 1000).
  { unfold decayed, MAX_ENERGY, ENERGY_LOSS_PER_SEC.
    destruct (Rlt_dec _ _); lra. }
  rewrite Hd. unfold ENERGY_FROM_FOOD, MAX_ENERGY. repeat split; lra.
Qed.

(** C2 (amended).  When [update] returns, the energy of the cell is the
    decayed energy clamped to [MAX_ENERGY], plus [ENERGY_FROM_FOOD] if the
    cell ate in that call: it does not exceed [MAX_ENERGY] when the cell
    did not eat, and does not exceed [MAX_ENERGY + ENERGY_FROM_FOOD] when it
    did. *)
Theorem update_energy_cap (c : Cell.t) (dt : R) (fs : list Food.t)
        (all_cells : list Cell.t) (time : R) (g : Rng) :
  let r := Cell.update c dt fs all_cells time g in
  let gain := match signal_of r with
              | Some _ => ENERGY_FROM_FOOD
              | None => 0
              end in
  Cell.energy (cell_of r) = decayed (Cell.energy c) dt + gain
  /\ decayed (Cell.energy c) dt <= MAX_ENERGY
  /\ Cell.energy (cell_of r) <= MAX_ENERGY + gain.
Proof.
  intros r gain. pose proof (decayed_le_max (Cell.energy c) dt) as Hd.
  destruct (update_energy c dt fs all_cells time g) as [[Hs He] | [Hs He]];
    fold r in Hs, He; subst gain; rewrite Hs, He; repeat split; lra.
Qed.

(** C7.  After every call of [update] the position of the cell is within
    the margins: 5 <= x <= WIDTH - 5 and 5 <= y <= HEIGHT - 5. *)
Theorem update_position_within_margins (c : Cell.t) (dt : R)
        (fs : list Food.t) (all_cells : list Cell.t) (time : R) (g : Rng) :
  let c' := cell_of (Cell.update c dt fs all_cells time g) in
  (5 <= Cell.x c' <= WIDTH - 5) /\ (5 <= Cell.y c' <= HEIGHT - 5).
Proof.
  rewrite update_unfold.
  destruct (advance_cell_shape c dt fs g)
    as (a1 & g1 & x' & y' & a' & g' & E & Hin & _).
  rewrite E. simpl.
  destruct (Cell.eat_scan _ fs); exact Hin.
Qed.

(** C10.  [update] leaves the radius, the base radius, the speed, the color
    and the breathing time offset of the cell as they were, whatever the
    state, the elapsed time, the food list and the random draws. *)
Theorem update_same_body (c : Cell.t) (dt : R) (fs : list Food.t)
        (all_cells : list Cell.t) (time : R) (g : Rng) :
  let c' := cell_of (Cell.update c dt fs all_cells time g) in
  Cell.radius c' = Cell.radius c
  /\ Cell.base_radius c' = Cell.base_radius c
  /\ Cell.speed c' = Cell.speed c
  /\ Cell.color c' = Cell.color c
  /\ Cell.time_offset c' = Cell.time_offset c.
Proof.
  rewrite update_unfold.
  destruct (advance_cell_shape c dt fs g)
    as (a1 & g1 & x' & y' & a' & g' & E & _).
  rewrite E. simpl.
  destruct (Cell.eat_scan _ fs); simpl; auto.
Qed.

(** ** Steering and the walls *)

(** The left wall: a cell whose move took it left of the margin, its [y]
    within the margins, is put back on the margin and given the heading
    [random.uniform(-pi/2, pi/2)]. *)
Lemma bounce_left (c : Cell.t) (g : Rng) :
  Cell.x c < Cell.margin ->
  Cell.margin <= Cell.y c <= HEIGHT - Cell.margin ->
  Cell.bounce c g
  = (Cell.set_angle (Cell.set_x c Cell.margin)
       (fst (uniform (- PI / 2) (PI / 2) g)), advance g).
Proof.
  destruct c as [cx cy r br a s e col tr off].
  unfold Cell.bounce, Cell.margin, WIDTH, HEIGHT. run. intros Hx Hy.
  case_walls; setters; try lra; reflexivity.
Qed.

Lemma sense_single (c : Cell.t) (f : Food.t) :
  (Food.x f - Cell.x c) ^ 2 + (Food.y f - Cell.y c) ^ 2
  <= CELL_SENSE_RADIUS ^ 2 ->
  Cell.sense c [f] = Some f.
Proof.
  intros H. unfold Cell.sense, Cell.sense_step. simpl.
  apply Rleb_true in H. simpl in H. rewrite H. reflexivity.
Qed.

(** C6 (as stated, refuted).  A cell on the left margin heading left
    (heading pi), with a food item 45 units behind it, within sensing range:
    steering turns it by at most 0.25, the move takes it across the margin,
    and the bounce redraws the heading; with the draw 1/2 the new heading
    is 0, a change of pi. *)
Lemma steering_bound_fails_at_wall :
  Cell.sense wall_cell [Food.mk 50 300] <> None
  /\ CELL_MAX_TURN
     < Rabs (Cell.angle (cell_of (Cell.update wall_cell (16 / 1000)
                                    [Food.mk 50 300] [wall_cell] 0 rng_mid))
             - Cell.angle wall_cell).
Proof.
  set (c := wall_cell). set (fs := [Food.mk 50 300]).
  assert (Hsense : Cell.sense c fs = Some (Food.mk 50 300)).
  { apply sense_single. unfold CELL_SENSE_RADIUS. simpl. lra. }
  split; [rewrite Hsense; discriminate |].
  pose proof PI2_1 as Hpi. pose proof PI_4 as Hpi4.
  assert (Hadv : exists c',
             Cell.advance_cell c (16 / 1000) fs rng_mid
             = (c', advance rng_mid)
             /\ Cell.angle c' = - PI / 2 + (PI / 2 - - PI / 2) * (1 / 2)).
  { unfold Cell.advance_cell. rewrite decay_shape.
    set (c1 := Cell.set_energy c (decayed (Cell.energy c) (16 / 1000))).
    assert (Hs1 : Cell.sense c1 fs = Cell.sense c fs)
      by (apply sense_position; reflexivity).
    unfold bind at 1.
    destruct (steer_shape c1 (Cell.sense c1 fs) rng_mid)
      as (a1 & g1 & Es & Ht).
    rewrite Es.
    destruct Ht as [-> Ht]; [rewrite Hs1, Hsense; discriminate |].
    change (Cell.angle c1) with PI in Ht. unfold CELL_MAX_TURN in Ht.
    assert (Hcos : cos a1 < 0) by (apply cos_lt_0; lra).
    pose proof (SIN_bound a1) as Hsin.
    unfold bind at 1. rewrite bounce_left.
    - eexists. split; reflexivity.
    - unfold Cell.margin.
      change (Cell.x (Cell.move (Cell.set_angle c1 a1)))
        with (5 + cos a1 * (11 / 9)). nra.
    - unfold Cell.margin, HEIGHT.
      change (Cell.y (Cell.move (Cell.set_angle c1 a1)))
        with (300 + sin a1 * (11 / 9)). lra. }
  destruct Hadv as (c' & Eadv & Hangle).
  rewrite update_unfold, Eadv. cbn [fst snd].
  assert (Hfinal : Cell.angle
                     (cell_of
                        match Cell.eat_scan c' fs with
                        | Some fs' =>
                            (Some "ate"%string,
                             Cell.set_energy c'
                               (Cell.energy c' + ENERGY_FROM_FOOD),
                             fs', advance rng_mid)
                        | None => (None, c', fs, advance rng_mid)
                        end) = Cell.angle c').
  { destruct (Cell.eat_scan c' fs); reflexivity. }
  rewrite Hfinal, Hangle. change (Cell.angle c) with PI.
  unfold CELL_MAX_TURN.
  replace (- PI / 2 + (PI / 2 - - PI / 2) * (1 / 2) - PI) with (- PI) by lra.
  rewrite Rabs_Ropp, Rabs_right; lra.
Qed.

(** ** Eating *)

(** The loop of the main program hands each [update] the food list the
    previous [update] left: the list [cell_step] stores is the one
    [update] returned. *)
Lemma cell_step_foods (dt time : R) (st : Pass) (i : nat) (c : Cell.t)
      (g : Rng) :
  nth_error (p_cells st) i = Some c ->
  p_foods (fst (cell_step dt time st i g))
  = foods_of (Cell.update c dt (p_foods st) (p_cells st) time g).
Proof.
  intros Hc. unfold cell_step. rewrite Hc. unfold bind at 1.
  destruct (Cell.update c dt (p_foods st) (p_cells st) time g)
    as [[[res c1] fs1] g1].
  unfold bind. destruct (try_split c1 g1) as [[child c2] g2]. reflexivity.
Qed.

(** ** Spawning food *)

Lemma repeatM_length {A : Type} (n : nat) (m : Rand A) (g : Rng) :
  List.length (fst (repeatM n m g)) = n.
Proof.
  revert g. induction n as [| n IH]; intros g; simpl; [reflexivity |].
  unfold bind. destruct (m g) as [a g1].
  specialize (IH g1). destruct (repeatM n m g1) as [l g2].
  simpl in *. unfold ret. simpl. congruence.
Qed.

(** C3 (as stated, refuted).  With 201 food items in the world, more than
    [MAX_FOOD], a left click still adds an item: the count goes to 202. *)
Lemma click_ignores_max_food :
  (MAX_FOOD < List.length (foods full_world))%nat
  /\ List.length
       (foods (fst (handle_event full_world
                      (MOUSEBUTTONDOWN 1 (10, 10)%Z) rng_mid)))
     = S (List.length (foods full_world)).
Proof.
  split.
  - unfold full_world, MAX_FOOD. cbn [foods]. rewrite repeat_length. lia.
  - change (foods (fst (handle_event full_world
                         (MOUSEBUTTONDOWN 1 (10, 10)%Z) rng_mid)))
      with (foods full_world ++ [Food.mk (IZR 10) (IZR 10)]).
    rewrite length_app. cbn [List.length]. lia.
Qed.

(** C3 (amended).  Every food-spawn request adds its food, whatever the
    current food count: a left click appends one item at the position of
    the click, the F key appends ten items; [MAX_FOOD] is not consulted. *)
Theorem spawn_food_unconditional (w : World) (g : Rng) :
  (forall mx my : Z,
      foods (fst (handle_event w (MOUSEBUTTONDOWN 1 (mx, my)) g))
      = foods w ++ [Food.mk (IZR mx) (IZR my)])
  /\ (exists fs : list Food.t,
         List.length fs = 10%nat
         /\ foods (fst (handle_event w (KEYDOWN K_f) g)) = foods w ++ fs).
Proof.
  split.
  - intros mx my. reflexivity.
  - exists (fst (repeatM 10 random_food g)). split.
    + apply repeatM_length.
    + unfold handle_event, bind.
      destruct (repeatM 10 random_food g) as [fs g1]. reflexivity.
Qed.

(** ** The per-cell pass *)

Lemma list_set_length {A : Type} (l : list A) (i : nat) (v : A) :
  List.length (list_set l i v) = List.length l.
Proof.
  revert i. induction l as [| a l IH]; intros [| i]; simpl; auto.
Qed.

Lemma list_set_same {A : Type} (l : list A) (i : nat) (v : A) :
  (i < List.length l)%nat -> nth_error (list_set l i v) i = Some v.
Proof.
  revert i. induction l as [| a l IH]; intros [| i] H; simpl in *;
    try lia; [reflexivity |]. apply IH. lia.
Qed.

Lemma list_set_other {A : Type} (l : list A) (i j : nat) (v : A) :
  j <> i -> nth_error (list_set l i v) j = nth_error l j.
Proof.
  revert i j. induction l as [| a l IH]; intros [| i] [| j] H; simpl;
    try reflexivity; try congruence. apply IH. congruence.
Qed.

Lemma same_body_refl (c : Cell.t) : same_body c c.
Proof. unfold same_body. auto. Qed.

Lemma same_body_trans (a b c : Cell.t) :
  same_body a b -> same_body b c -> same_body a c.
Proof.
  unfold same_body.
  intros (A1 & A2 & A3 & A4 & A5) (B1 & B2 & B3 & B4 & B5).
  repeat split; congruence.
Qed.

Lemma deque_append_nonempty (d : list (R * R)) (p : R * R) :
  Cell.deque_append d p <> [].
Proof.
  unfold Cell.deque_append.
  destruct (Cell.trail_maxlen <=? List.length d)%nat;
    intros H; apply app_eq_nil in H; destruct H; discriminate.
Qed.

(** What [update] leaves fixed, and the mark it leaves: a trail that is
    not empty. *)
Lemma update_frame (c : Cell.t) (dt : R) (fs : list Food.t)
      (all_cells : list Cell.t) (time : R) (g : Rng) :
  same_body c (cell_of (Cell.update c dt fs all_cells time g))
  /\ Cell.trail (cell_of (Cell.update c dt fs all_cells time g)) <> [].
Proof.
  rewrite update_unfold.
  destruct (advance_cell_shape c dt fs g)
    as (a1 & g1 & x' & y' & a' & g' & E & _).
  rewrite E. simpl. unfold same_body, cell_of.
  destruct (Cell.eat_scan _ fs); simpl;
    (split; [auto 10 | apply deque_append_nonempty]).
Qed.

(** The split attempt of the loop: the parent keeps its body and its
    trail; a child, if any, is alive and has an empty trail. *)
Lemma try_split_spec (c : Cell.t) (g : Rng) :
  let r := try_split c g in
  same_body c (snd (fst r))
  /\ Cell.trail (snd (fst r)) = Cell.trail c
  /\ (forall ch, fst (fst r) = Some ch ->
                 Cell.trail ch = [] /\ Cell.is_dead ch = false).
Proof.
  unfold try_split.
  destruct (Cell.can_split c).
  2: { simpl. split; [apply same_body_refl |]. split; [reflexivity |].
       intros ch H; discriminate. }
  unfold bind, random.
  destruct (Rltb (unit_src g (draws g)) (2 / 100)).
  2: { simpl. split; [apply same_body_refl |]. split; [reflexivity |].
       intros ch H; discriminate. }
  destruct (Cell.split c (advance g)) as [[o c'] g'] eqn:E.
  apply split_cases in E. simpl.
  destruct E as [(-> & _ & -> & _) | (child & -> & N & -> & He & Ht & Hr)].
  - split; [unfold same_body; simpl; auto |]. split; [reflexivity |].
    intros ch H; discriminate.
  - split; [unfold same_body; simpl; auto |]. split; [reflexivity |].
    intros ch H. inversion H; subst ch. split; [exact Ht |].
    unfold Cell.is_dead. apply orb_false_intro.
    + apply Rleb_false. rewrite He.
      pose proof (py_max_lower 5 (Cell.energy c / 2 - SPLIT_ENERGY_COST / 2)).
      lra.
    + apply Z.leb_gt. rewrite Hr. unfold CELL_MIN_RADIUS. lia.
Qed.

Lemma cell_step_inv (cells0 : list Cell.t) (dt time : R) (k : nat)
      (st : Pass) (g : Rng) :
  pass_inv cells0 k st -> (k < List.length cells0)%nat ->
  pass_inv cells0 (S k) (fst (cell_step dt time st k g)).
Proof.
  intros (Hlen & Hcells & Hdead & Hkids) Hk.
  destruct (nth_error (p_cells st) k) as [c |] eqn:Ec.
  2: { apply nth_error_None in Ec. lia. }
  unfold cell_step. rewrite Ec. unfold bind at 1.
  destruct (update_frame c dt (p_foods st) (p_cells st) time g) as [Hb1 Ht1].
  destruct (Cell.update c dt (p_foods st) (p_cells st) time g)
    as [[[res c1] fs1] g1].
  unfold cell_of in Hb1, Ht1. simpl in Hb1, Ht1.
  unfold bind at 1.
  destruct (try_split_spec c1 g1) as (Hb2 & Ht2 & Hch).
  destruct (try_split c1 g1) as [[child c2] g2].
  simpl in Hb2, Ht2, Hch. unfold ret. simpl.
  assert (Hkl : (k < List.length (p_cells st))%nat) by lia.
  unfold pass_inv. simpl. repeat split.
  - rewrite list_set_length. exact Hlen.
  - intros j c0 Hj. destruct (Hcells j c0 Hj) as (cj & Ecj & Hbj & Htj).
    destruct (Nat.eq_dec j k) as [-> | Hne].
    + exists c2. rewrite list_set_same by exact Hkl.
      split; [reflexivity |]. split.
      * assert (cj = c) by congruence. subst cj.
        eapply same_body_trans; [exact Hbj |].
        eapply same_body_trans; eassumption.
      * intros _. rewrite Ht2. exact Ht1.
    + exists cj. rewrite list_set_other by exact Hne.
      split; [exact Ecj |]. split; [exact Hbj |].
      intros Hlt. apply Htj. lia.
  - assert (Hj : In j (dead_indices st) \/ (j = k /\ Cell.is_dead c2 = true)).
    { destruct (Cell.is_dead c2); [| auto].
      apply in_app_or in H. destruct H as [H | [H | []]]; auto. }
    destruct Hj as [Hj | [-> _]]; [| lia].
    apply Hdead in Hj. lia.
  - assert (Hj : In j (dead_indices st) \/ (j = k /\ Cell.is_dead c2 = true)).
    { destruct (Cell.is_dead c2); [| auto].
      apply in_app_or in H. destruct H as [H | [H | []]]; auto. }
    destruct Hj as [Hj | [-> Hd]].
    + apply Hdead in Hj. destruct Hj as (Hlt & cj & Ecj & Hdj).
      exists cj. rewrite list_set_other by lia. auto.
    + exists c2. rewrite list_set_same by exact Hkl. auto.
  - intros (Hlt & cj & Ecj & Hdj).
    destruct (Nat.eq_dec j k) as [-> | Hne].
    + rewrite list_set_same in Ecj by exact Hkl.
      inversion Ecj; subst cj. rewrite Hdj.
      apply in_or_app. right. left. reflexivity.
    + rewrite list_set_other in Ecj by exact Hne.
      assert (Hin : In j (dead_indices st)).
      { apply Hdead. split; [lia |]. exists cj. auto. }
      destruct (Cell.is_dead c2); [apply in_or_app; left |]; exact Hin.
  - destruct child as [ch |]; [| exact Hkids].
    apply Forall_app. split; [exact Hkids |].
    constructor; [apply Hch; reflexivity | constructor].
Qed.

Lemma for_each_inv (cells0 : list Cell.t) (dt time : R) (m k : nat)
      (st : Pass) (g : Rng) :
  (k + m <= List.length cells0)%nat ->
  pass_inv cells0 k st ->
  pass_inv cells0 (k + m) (fst (for_each dt time st (seq k m) g)).
Proof.
  revert k st g. induction m as [| m IH]; intros k st g Hk Hinv; simpl.
  - rewrite Nat.add_0_r. exact Hinv.
  - unfold bind.
    pose proof (cell_step_inv cells0 dt time k st g Hinv ltac:(lia)) as Hstep.
    destruct (cell_step dt time st k g) as [st1 g1]. simpl in Hstep.
    replace (k + S m)%nat with (S k + m)%nat by lia.
    apply IH; [lia | exact Hstep].
Qed.

Lemma cell_pass_inv (dt time : R) (cs : list Cell.t) (fs : list Food.t)
      (births : Z) (g : Rng) :
  pass_inv cs (List.length cs) (fst (cell_pass dt time cs fs births g)).
Proof.
  unfold cell_pass.
  apply (for_each_inv cs dt time (List.length cs) 0); [simpl; lia |].
  unfold pass_inv. cbn [p_cells dead_indices new_cells].
  split; [reflexivity |]. split; [| split].
  - intros j c0 Hj. exists c0. split; [exact Hj |].
    split; [apply same_body_refl | lia].
  - intros j. split.
    + intros [].
    + intros [Hlt _]. lia.
  - constructor.
Qed.

(** Removal by index agrees with removal by [is_dead] when the index list
    holds just the indices of the dead cells. *)
Lemma drop_by_index (dead : list nat) (l : list Cell.t) (k : nat) :
  (forall i c, nth_error l i = Some c ->
               existsb (Nat.eqb (k + i)) dead = Cell.is_dead c) ->
  map snd (filter (fun ic => negb (existsb (Nat.eqb (fst ic)) dead))
             (combine (seq k (List.length l)) l))
  = filter (fun c => negb (Cell.is_dead c)) l.
Proof.
  revert k. induction l as [| a l IH]; intros k H; simpl; [reflexivity |].
  pose proof (H 0%nat a eq_refl) as H0. rewrite Nat.add_0_r in H0.
  rewrite H0.
  assert (Ht : forall i c, nth_error l i = Some c ->
                 existsb (Nat.eqb (S k + i)) dead = Cell.is_dead c).
  { intros i c Hi. rewrite <- (H (S i) c Hi). f_equal. f_equal. lia. }
  destruct (Cell.is_dead a); simpl; rewrite (IH (S k) Ht); reflexivity.
Qed.

Lemma drop_dead_filter (cs : list Cell.t) (dead : list nat) :
  (forall j, In j dead <->
             (j < List.length cs)%nat
             /\ exists c, nth_error cs j = Some c /\ Cell.is_dead c = true) ->
  drop_dead cs dead = filter (fun c => negb (Cell.is_dead c)) cs.
Proof.
  intros H. unfold drop_dead, enumerate. apply drop_by_index.
  intros i c Hi. simpl.
  destruct (Cell.is_dead c) eqn:Hd.
  - apply existsb_exists. exists i. split; [| apply Nat.eqb_refl].
    apply H. split; [| exists c; auto].
    apply nth_error_Some. congruence.
  - destruct (existsb (Nat.eqb i) dead) eqn:He; [| reflexivity].
    apply existsb_exists in He. destruct He as (j & Hj & Hij).
    apply Nat.eqb_eq in Hij. subst j.
    apply H in Hj. destruct Hj as (_ & c' & Hc' & Hd'). congruence.
Qed.

Lemma drop_dead_nil (cs : list Cell.t) : drop_dead cs [] = cs.
Proof.
  unfold drop_dead, enumerate. generalize 0%nat.
  induction cs as [| a l IH]; intros k; simpl; [reflexivity |].
  rewrite IH. reflexivity.
Qed.

(* ==================== FURTHER PROPERTIES ==================== *)

(** ** The random draws *)

Ltac draw_all :=
  unfold uniform, random, randint, advance, bind, ret;
  cbn [fst snd unit_src int_src draws].

Lemma same_oracle_refl (g : Rng) : same_oracle g g.
Proof. split; reflexivity. Qed.

Lemma same_oracle_trans (g1 g2 g3 : Rng) :
  same_oracle g1 g2 -> same_oracle g2 g3 -> same_oracle g1 g3.
Proof. intros [A B] [C D]. split; congruence. Qed.

Lemma same_oracle_ok (g g' : Rng) : same_oracle g g' -> rng_ok g -> rng_ok g'.
Proof. intros [A _] H n. rewrite A. apply H. Qed.

Lemma uniform_range (a b : R) (g : Rng) :
  rng_ok g -> a <= b ->
  a <= fst (uniform a b g) <= b /\ same_oracle g (snd (uniform a b g)).
Proof.
  intros Hg Hab. draw_all. specialize (Hg (draws g)).
  set (u := unit_src g (draws g)) in *.
  assert (H1 : 0 <= (b - a) * u) by (apply Rmult_le_pos; lra).
  assert (H2 : 0 <= (b - a) * (1 - u)) by (apply Rmult_le_pos; lra).
  split; [lra | split; reflexivity].
Qed.

Lemma randint_range (a b : Z) (g : Rng) :
  (a <= b)%Z ->
  (a <= fst (randint a b g) <= b)%Z /\ same_oracle g (snd (randint a b g)).
Proof.
  intros Hab. draw_all.
  pose proof (Z.mod_pos_bound (int_src g (draws g)) (b - a + 1)).
  split; [lia | split; reflexivity].
Qed.

(** ** [int()] *)

Lemma py_int_nonneg (r : R) :
  0 <= r -> (0 <= py_int r)%Z /\ IZR (py_int r) <= r < IZR (py_int r) + 1.
Proof.
  intros H. unfold py_int. destruct (Rle_dec 0 r); [| contradiction].
  split; [| apply Zfloor_bound].
  apply Zfloor_lub. simpl. exact H.
Qed.

Lemma py_int_nonpos (r : R) : r <= 0 -> (py_int r <= 0)%Z.
Proof.
  intros H. unfold py_int. destruct (Rle_dec 0 r).
  - assert (r = 0) by lra. subst r. change 0 with (IZR 0).
    rewrite ZfloorZ. lia.
  - pose proof (Zceil_bound r) as [Hlo _].
    apply le_IZR. apply Rnot_lt_le. intros Hc.
    assert (1 <= IZR (Zceil r)).
    { change 1 with (IZR 1). apply IZR_le. apply lt_IZR in Hc. lia. }
    lra.
Qed.

Lemma py_int_le (r : R) (z : Z) : 0 <= r -> r < IZR z + 1 -> (py_int r <= z)%Z.
Proof.
  intros H0 H. destruct (py_int_nonneg r H0) as (_ & Hlo & _).
  apply Z.lt_succ_r. apply lt_IZR. rewrite succ_IZR. lra.
Qed.

Lemma py_int_ge (r : R) (z : Z) : IZR z <= r -> (0 <= z)%Z -> (z <= py_int r)%Z.
Proof.
  intros H Hz.
  assert (H0 : 0 <= r) by (apply IZR_le in Hz; simpl in Hz; lra).
  unfold py_int. destruct (Rle_dec 0 r); [| contradiction].
  apply Zfloor_lub. exact H.
Qed.

(** ** [Cell.__init__] *)

Lemma init_spec (x0 y0 : R) (r0 : option Z) (g : Rng) :
  exists r u e col o g',
    Cell.init x0 y0 r0 g
    = (Cell.mk x0 y0 r r (u * 2 * PI)
         (CELL_BASE_SPEED *
            (1 + IZR (CELL_MAX_RADIUS - r) / IZR (CELL_MAX_RADIUS * 2)))
         e col [] o, g')
    /\ same_oracle g g'
    /\ match r0 with
       | Some z => if (z =? 0)%Z
                   then (CELL_MIN_RADIUS <= r <= CELL_MAX_RADIUS)%Z
                   else r = z
       | None => (CELL_MIN_RADIUS <= r <= CELL_MAX_RADIUS)%Z
       end
    /\ (let '(c0, c1, c2) := col in
        80 <= c0 <= 255 /\ 80 <= c1 <= 255 /\ 80 <= c2 <= 255)%Z
    /\ (rng_ok g -> 0 <= u < 1 /\ 20 <= e <= 50 /\ 0 <= o <= 2 * PI).
Proof.
  unfold Cell.init. unfold bind at 1.
  set (rad := match r0 with
              | Some z => if (z =? 0)%Z
                          then randint CELL_MIN_RADIUS CELL_MAX_RADIUS
                          else ret z
              | None => randint CELL_MIN_RADIUS CELL_MAX_RADIUS
              end).
  assert (Hrad : exists r g1,
             rad g = (r, g1) /\ same_oracle g g1
             /\ match r0 with
                | Some z => if (z =? 0)%Z
                            then (CELL_MIN_RADIUS <= r <= CELL_MAX_RADIUS)%Z
                            else r = z
                | None => (CELL_MIN_RADIUS <= r <= CELL_MAX_RADIUS)%Z
                end).
  { assert (Hd : exists r g1,
               randint CELL_MIN_RADIUS CELL_MAX_RADIUS g = (r, g1)
               /\ same_oracle g g1
               /\ (CELL_MIN_RADIUS <= r <= CELL_MAX_RADIUS)%Z).
    { destruct (randint_range CELL_MIN_RADIUS CELL_MAX_RADIUS g) as [Hr Ho].
      - unfold CELL_MIN_RADIUS, CELL_MAX_RADIUS. lia.
      - destruct (randint CELL_MIN_RADIUS CELL_MAX_RADIUS g) as [r g1].
        exists r, g1. auto. }
    subst rad. destruct r0 as [z |]; [| exact Hd].
    destruct (z =? 0)%Z; [exact Hd |].
    exists z, g. split; [reflexivity |]. split; [apply same_oracle_refl |].
    reflexivity. }
  destruct Hrad as (r & g1 & E & [Hu Hi] & Hr). rewrite E. draw_all.
  do 6 eexists. split; [reflexivity |].
  split; [split; assumption |]. split; [exact Hr |]. split.
  - repeat split;
      match goal with
      | |- context [(?v mod ?m)%Z] =>
          pose proof (Z.mod_pos_bound v m ltac:(lia)); lia
      end.
  - intros Hg. unfold rng_ok in Hg. rewrite <- Hu in Hg.
    pose proof (Hg (draws g1)) as H1.
    pose proof (Hg (S (draws g1))) as H2.
    pose proof (Hg (S (S (S (S (S (draws g1))))))) as H3.
    pose proof PI_RGT_0 as Hpi.
    split; [exact H1 |]. split; [lra |].
    set (v := unit_src g1 (S (S (S (S (S (draws g1))))))) in *.
    assert (0 <= 2 * PI * v) by (apply Rmult_le_pos; lra).
    assert (0 <= 2 * PI * (1 - v)) by (apply Rmult_le_pos; lra).
    lra.
Qed.

Lemma fresh_record (x0 y0 : R) (r : Z) (u e : R) (col : Z * Z * Z) (o : R) :
  (CELL_MIN_RADIUS <= r <= CELL_MAX_RADIUS)%Z ->
  (let '(c0, c1, c2) := col in
   80 <= c0 <= 255 /\ 80 <= c1 <= 255 /\ 80 <= c2 <= 255)%Z ->
  0 <= u < 1 -> 20 <= e <= 50 ->
  let c := Cell.mk x0 y0 r r (u * 2 * PI)
             (CELL_BASE_SPEED *
                (1 + IZR (CELL_MAX_RADIUS - r) / IZR (CELL_MAX_RADIUS * 2)))
             e col [] o in
  fresh_cell c /\ Cell.is_dead c = false /\ Cell.can_split c = false.
Proof.
  unfold CELL_MIN_RADIUS, CELL_MAX_RADIUS. intros Hr Hcol Hu He.
  assert (Hs : 0 <= IZR (18 - r) <= 10).
  { split; [apply (IZR_le 0) | apply (IZR_le _ 10)]; lia. }
  pose proof PI_RGT_0 as Hpi.
  unfold fresh_cell, Cell.is_dead, Cell.can_split, CELL_BASE_SPEED,
    CELL_MIN_RADIUS, CELL_MAX_RADIUS, SPLIT_ENERGY_THRESHOLD.
  cbn [Cell.x Cell.y Cell.radius Cell.base_radius Cell.angle Cell.speed
       Cell.energy Cell.color Cell.trail].
  change (IZR (18 * 2)) with 36.
  repeat split; try lia; try lra; try exact Hcol.
  - assert (0 <= 2 * PI * u) by (apply Rmult_le_pos; lra). lra.
  - assert (0 <= 2 * PI * (1 - u)) by (apply Rmult_le_pos; lra). lra.
  - apply orb_false_intro; [apply Rleb_false; lra | apply Z.leb_gt; lia].
  - apply andb_false_intro1. apply Rleb_false. lra.
Qed.

(** X1.  A cell constructed without a radius, under a well-formed
    generator: its radius is drawn in 8..18 and is also its base radius, its
    speed lies between 1 and 1 + 10/36, its energy between 20 and 50, its
    trail is empty and its color channels lie in 80..255; it sits where it
    was asked to, it is alive, and it cannot split yet. *)
Theorem init_fresh (x0 y0 : R) (g : Rng) :
  rng_ok g ->
  let c := fst (Cell.init x0 y0 None g) in
  fresh_cell c /\ Cell.x c = x0 /\ Cell.y c = y0
  /\ Cell.is_dead c = false /\ Cell.can_split c = false.
Proof.
  intros Hg.
  destruct (init_spec x0 y0 None g)
    as (r & u & e & col & o & g' & E & _ & Hr & Hcol & Hrest).
  rewrite E. cbn [fst]. destruct (Hrest Hg) as (Hu & He & _).
  destruct (fresh_record x0 y0 r u e col o Hr Hcol Hu He) as (Hf & Hd & Hc).
  cbv zeta in Hf, Hd, Hc. cbv zeta.
  split; [exact Hf |]. split; [reflexivity |]. split; [reflexivity |].
  split; assumption.
Qed.

Lemma init_fresh_witness :
  fresh_cell (fst (Cell.init 100 200 None rng_mid))
  /\ Cell.x (fst (Cell.init 100 200 None rng_mid)) = 100
  /\ Cell.y (fst (Cell.init 100 200 None rng_mid)) = 200
  /\ Cell.is_dead (fst (Cell.init 100 200 None rng_mid)) = false
  /\ Cell.can_split (fst (Cell.init 100 200 None rng_mid)) = false.
Proof.
  apply (init_fresh 100 200 rng_mid).
  intros n. unfold rng_mid. cbn [unit_src]. lra.
Defined.

(** X2.  Smaller cells move faster: of two cells constructed with explicit
    non-zero radii, the one with the smaller radius has the greater or equal
    speed, whatever the positions and the random draws. *)
Theorem init_speed_antitone (x1 y1 x2 y2 : R) (r1 r2 : Z) (g1 g2 : Rng) :
  r1 <> 0%Z -> r2 <> 0%Z -> (r1 <= r2)%Z ->
  Cell.speed (fst (Cell.init x2 y2 (Some r2) g2))
  <= Cell.speed (fst (Cell.init x1 y1 (Some r1) g1)).
Proof.
  intros H1 H2 Hle.
  destruct (init_spec x1 y1 (Some r1) g1)
    as (ra & ? & ? & ? & ? & ? & E1 & _ & Hr1 & _).
  destruct (init_spec x2 y2 (Some r2) g2)
    as (rb & ? & ? & ? & ? & ? & E2 & _ & Hr2 & _).
  apply Z.eqb_neq in H1, H2. rewrite H1 in Hr1. rewrite H2 in Hr2.
  subst ra rb. rewrite E1, E2. cbn [fst Cell.speed].
  unfold CELL_BASE_SPEED, CELL_MAX_RADIUS. change (IZR (18 * 2)) with 36.
  assert (IZR (18 - r2) <= IZR (18 - r1)) by (apply IZR_le; lia).
  lra.
Qed.

Lemma init_speed_antitone_witness :
  Cell.speed (fst (Cell.init 0 0 (Some 18%Z) rng_mid))
  <= Cell.speed (fst (Cell.init 0 0 (Some 8%Z) rng_mid)).
Proof.
  apply (init_speed_antitone 0 0 0 0 8 18 rng_mid rng_mid); lia.
Defined.

(** ** More on [Cell.split] *)

(** X3.  The guard of the main loop is enough for the split to go through:
    on a cell for which [can_split] holds, [split] always returns a child,
    and parent and child are both left alive with the same energy, at least
    15. *)
Theorem can_split_split_succeeds (c : Cell.t) (g : Rng) :
  Cell.can_split c = true ->
  exists child c' g',
    Cell.split c g = (Some child, c', g')
    /\ 15 <= Cell.energy c'
    /\ Cell.energy child = Cell.energy c'
    /\ Cell.is_dead c' = false
    /\ Cell.is_dead child = false.
Proof.
  unfold Cell.can_split. intros H. apply andb_true_iff in H.
  destruct H as [He Hr]. apply Rleb_true in He. apply Z.leb_le in Hr.
  unfold SPLIT_ENERGY_THRESHOLD, CELL_MIN_RADIUS in *.
  assert (N : ~ Cell.energy c / 2 - SPLIT_ENERGY_COST / 2 < 5)
    by (unfold SPLIT_ENERGY_COST; lra).
  destruct (split_done c g N) as (child & g' & E & Hce & _ & Hcr).
  exists child, (Cell.set_energy c (Cell.energy c / 2 - SPLIT_ENERGY_COST / 2)), g'.
  split; [exact E |].
  rewrite (py_max_id 5) in Hce by lra.
  unfold Cell.is_dead, SPLIT_ENERGY_COST, CELL_MIN_RADIUS in *.
  rewrite Hce, Hcr. cbn [Cell.energy Cell.radius Cell.set_energy].
  split; [lra |]. split; [reflexivity |]. split.
  - apply orb_false_intro; [apply Rleb_false; lra | apply Z.leb_gt; lia].
  - apply orb_false_intro; [apply Rleb_false; lra | apply Z.leb_gt; lia].
Qed.

Lemma can_split_split_succeeds_witness :
  exists child c' g',
    Cell.split (sample_cell 450 300 0 65) rng_mid = (Some child, c', g')
    /\ 15 <= Cell.energy c'
    /\ Cell.energy child = Cell.energy c'
    /\ Cell.is_dead c' = false
    /\ Cell.is_dead child = false.
Proof.
  apply (can_split_split_succeeds (sample_cell 450 300 0 65) rng_mid).
  unfold Cell.can_split. apply andb_true_iff. split.
  - apply Rleb_true. unfold SPLIT_ENERGY_THRESHOLD. simpl. lra.
  - reflexivity.
Defined.

(** X4.  The energy budget of [split]: whether the split goes through or
    is abandoned, the energy of the parent after the call plus the energy of
    the child, if there is one, is the energy the parent had less
    [SPLIT_ENERGY_COST]. *)
Theorem split_energy_budget (c : Cell.t) (g : Rng) :
  Cell.energy (snd (fst (Cell.split c g)))
  + match fst (fst (Cell.split c g)) with
    | Some child => Cell.energy child
    | None => 0
    end
  = Cell.energy c - SPLIT_ENERGY_COST.
Proof.
  destruct (Cell.split c g) as [[o c'] g'] eqn:E. cbn [fst snd].
  apply split_cases in E.
  destruct E as [(-> & _ & -> & _) | (child & -> & N & -> & He & _)].
  - cbn [Cell.energy Cell.set_energy]. lra.
  - rewrite He. rewrite py_max_id by lra.
    cbn [Cell.energy Cell.set_energy]. lra.
Qed.

(** X6.  No chain of splits: when a cell whose energy is at most
    [MAX_ENERGY + ENERGY_FROM_FOOD] (the most [update] can leave) splits,
    neither the parent nor the child can split again before gaining
    energy. *)
Theorem split_no_immediate_resplit (c : Cell.t) (g : Rng)
        (child c' : Cell.t) (g' : Rng) :
  Cell.energy c <= MAX_ENERGY + ENERGY_FROM_FOOD ->
  Cell.split c g = (Some child, c', g') ->
  Cell.can_split c' = false /\ Cell.can_split child = false.
Proof.
  unfold MAX_ENERGY, ENERGY_FROM_FOOD. intros Hmax E.
  apply split_cases in E.
  destruct E as [(D & _) | (ch & D & N & -> & He & _)]; [discriminate |].
  inversion D; subst ch. rewrite py_max_id in He by lra.
  unfold Cell.can_split, SPLIT_ENERGY_THRESHOLD, SPLIT_ENERGY_COST in *.
  rewrite He. cbn [Cell.energy Cell.set_energy].
  split; apply andb_false_intro1; apply Rleb_false; lra.
Qed.

Lemma split_no_immediate_resplit_witness :
  exists child c' g',
    Cell.split (sample_cell 450 300 0 65) rng_mid = (Some child, c', g')
    /\ Cell.can_split c' = false /\ Cell.can_split child = false.
Proof.
  destruct (split_done (sample_cell 450 300 0 65) rng_mid)
    as (child & g' & E & _).
  - unfold SPLIT_ENERGY_COST; simpl; lra.
  - exists child, (Cell.set_energy (sample_cell 450 300 0 65)
                     (Cell.energy (sample_cell 450 300 0 65) / 2
                      - SPLIT_ENERGY_COST / 2)), g'.
    split; [exact E |].
    apply (split_no_immediate_resplit (sample_cell 450 300 0 65) rng_mid
             child _ g'); [| exact E].
    unfold MAX_ENERGY, ENERGY_FROM_FOOD; simpl; lra.
Defined.

Lemma split_child_detail (c : Cell.t) (g : Rng) :
  rng_ok g -> (0 <= Cell.radius c)%Z ->
  ~ Cell.energy c / 2 - SPLIT_ENERGY_COST / 2 < 5 ->
  exists child g',
    Cell.split c g
    = (Some child,
       Cell.set_energy c (Cell.energy c / 2 - SPLIT_ENERGY_COST / 2), g')
    /\ (CELL_MIN_RADIUS <= Cell.radius child
        <= Z.max CELL_MIN_RADIUS (Cell.radius c))%Z
    /\ Cell.base_radius child = Cell.radius child
    /\ Rabs (Cell.x child - Cell.x c) <= IZR (2 * Cell.radius c)
    /\ Rabs (Cell.y child - Cell.y c) <= IZR (2 * Cell.radius c)
    /\ valid_color (Cell.color child)
    /\ (valid_color (Cell.color c) ->
        color_near 20 (Cell.color c) (Cell.color child))
    /\ same_oracle g g'.
Proof.
  intros Hg Hr N. unfold Cell.split. cbv zeta.
  cbn [Cell.energy Cell.radius Cell.x Cell.y Cell.color Cell.set_energy].
  destruct (Rlt_dec _ 5) as [L | _]; [contradiction |].
  assert (Hab : IZR (- Cell.radius c * 2) <= IZR (Cell.radius c * 2))
    by (apply IZR_le; lia).
  unfold bind at 1.
  destruct (uniform_range _ _ g Hg Hab) as [Hox Ho1].
  destruct (uniform (IZR (- Cell.radius c * 2)) (IZR (Cell.radius c * 2)) g)
    as [ox g1]. cbn [fst snd] in Hox, Ho1.
  assert (Hg1 : rng_ok g1) by (eapply same_oracle_ok; eassumption).
  unfold bind at 1.
  destruct (uniform_range _ _ g1 Hg1 Hab) as [Hoy Ho2].
  destruct (uniform (IZR (- Cell.radius c * 2)) (IZR (Cell.radius c * 2)) g1)
    as [oy g2]. cbn [fst snd] in Hoy, Ho2.
  unfold bind at 1.
  set (rr := Z.max CELL_MIN_RADIUS (py_int (IZR (Cell.radius c) * (9 / 10)))).
  destruct (init_spec (Cell.x c + ox) (Cell.y c + oy) (Some rr) g2)
    as (r & u & e & col & o & g3 & E & Ho3 & Hrr & _).
  assert (Hrr0 : (rr =? 0)%Z = false)
    by (apply Z.eqb_neq; subst rr; unfold CELL_MIN_RADIUS; lia).
  rewrite Hrr0 in Hrr. subst r. rewrite E.
  unfold bind at 1.
  destruct (randint_range (-20) 20 g3 ltac:(lia)) as [Hj0 Ho4].
  destruct (randint (-20) 20 g3) as [j0 g4]. cbn [fst snd] in Hj0, Ho4.
  unfold bind at 1.
  destruct (randint_range (-20) 20 g4 ltac:(lia)) as [Hj1 Ho5].
  destruct (randint (-20) 20 g4) as [j1 g5]. cbn [fst snd] in Hj1, Ho5.
  unfold bind at 1.
  destruct (randint_range (-20) 20 g5 ltac:(lia)) as [Hj2 Ho6].
  destruct (randint (-20) 20 g5) as [j2 g6]. cbn [fst snd] in Hj2, Ho6.
  destruct (Cell.color c) as [[r0 g0] b0]. unfold ret.
  do 2 eexists. split; [reflexivity |].
  cbn [Cell.x Cell.y Cell.radius Cell.base_radius Cell.color
       Cell.set_color Cell.set_energy].
  assert (Hlo : IZR (- Cell.radius c * 2) = - IZR (2 * Cell.radius c))
    by (rewrite <- opp_IZR; f_equal; lia).
  assert (Hhi : IZR (Cell.radius c * 2) = IZR (2 * Cell.radius c))
    by (f_equal; lia).
  rewrite Hlo, Hhi in Hox, Hoy.
  repeat split.
  - subst rr. lia.
  - subst rr. apply Z.max_lub; [lia |].
    apply Z.le_trans with (Cell.radius c); [| lia].
    apply py_int_le.
    + apply Rmult_le_pos; [apply (IZR_le 0); exact Hr | lra].
    + assert (0 <= IZR (Cell.radius c)) by (apply (IZR_le 0); exact Hr). lra.
  - apply Rabs_le. lra.
  - apply Rabs_le. lra.
  - lia.
  - lia.
  - lia.
  - lia.
  - lia.
  - lia.
  - unfold valid_color in H. lia.
  - unfold valid_color in H. lia.
  - unfold valid_color in H. lia.
  - destruct Ho1, Ho2, Ho3, Ho4, Ho5, Ho6. congruence.
  - destruct Ho1, Ho2, Ho3, Ho4, Ho5, Ho6. congruence.
Qed.

(** X5.  The child of a split, under a well-formed generator and for a
    parent of non-negative radius: its radius is at least
    [CELL_MIN_RADIUS], at most the larger of [CELL_MIN_RADIUS] and the
    parent's radius, and is also its base radius; it is placed within twice
    the parent's radius of the parent on each axis; its color channels are
    valid bytes, each within 20 of the parent's when the parent's are valid;
    the parent keeps everything but its energy. *)
Theorem split_child_shape (c : Cell.t) (g : Rng) (child c' : Cell.t)
        (g' : Rng) :
  rng_ok g -> (0 <= Cell.radius c)%Z ->
  Cell.split c g = (Some child, c', g') ->
  (CELL_MIN_RADIUS <= Cell.radius child
   <= Z.max CELL_MIN_RADIUS (Cell.radius c))%Z
  /\ Cell.base_radius child = Cell.radius child
  /\ Rabs (Cell.x child - Cell.x c) <= IZR (2 * Cell.radius c)
  /\ Rabs (Cell.y child - Cell.y c) <= IZR (2 * Cell.radius c)
  /\ valid_color (Cell.color child)
  /\ (valid_color (Cell.color c) ->
      color_near 20 (Cell.color c) (Cell.color child))
  /\ c' = Cell.set_energy c (Cell.energy c')
  /\ rng_ok g'.
Proof.
  intros Hg Hr E.
  assert (N : ~ Cell.energy c / 2 - SPLIT_ENERGY_COST / 2 < 5).
  { pose proof E as E'. apply split_cases in E'.
    destruct E' as [(D & _) | (ch & _ & N & _)]; [discriminate | exact N]. }
  destruct (split_child_detail c g Hg Hr N)
    as (ch & g1 & E1 & H1 & H2 & H3 & H4 & H5 & H6 & H7).
  rewrite E1 in E. inversion E; subst ch c' g'.
  repeat (split; [assumption |]).
  split; [reflexivity |]. eapply same_oracle_ok; eassumption.
Qed.

Lemma split_child_shape_witness :
  exists child c' g',
    Cell.split (sample_cell 450 300 0 65) rng_mid = (Some child, c', g')
    /\ (CELL_MIN_RADIUS <= Cell.radius child <= 10)%Z
    /\ Rabs (Cell.x child - 450) <= 20
    /\ valid_color (Cell.color child).
Proof.
  destruct (split_done (sample_cell 450 300 0 65) rng_mid)
    as (child & g' & E & _).
  - unfold SPLIT_ENERGY_COST; simpl; lra.
  - exists child, (Cell.set_energy (sample_cell 450 300 0 65)
                     (Cell.energy (sample_cell 450 300 0 65) / 2
                      - SPLIT_ENERGY_COST / 2)), g'.
    split; [exact E |].
    assert (Hg : rng_ok rng_mid)
      by (intros n; unfold rng_mid; cbn [unit_src]; lra).
    assert (Hr : (0 <= Cell.radius (sample_cell 450 300 0 65))%Z)
      by (cbn [Cell.radius sample_cell]; lia).
    destruct (split_child_shape _ _ _ _ _ Hg Hr E)
      as (H1 & _ & H3 & _ & H5 & _).
    split; [exact H1 |]. split; [exact H3 | exact H5].
Defined.

(** ** More on [Cell.update] *)

(** The sensing loop after the items of [seen]: its state is the nearest of
    the items of [seen] that lie within the sensing radius, with its squared
    distance, or the initial state if there is none. *)
Lemma sense_fold (c : Cell.t) (l seen : list Food.t)
      (st : option (R * Food.t)) :
  match st with
  | None => forall f', In f' seen -> CELL_SENSE_RADIUS ^ 2 < sq_dist c f'
  | Some (d, f) =>
      d = sq_dist c f /\ In f seen /\ d <= CELL_SENSE_RADIUS ^ 2
      /\ forall f', In f' seen -> sq_dist c f' <= CELL_SENSE_RADIUS ^ 2 ->
                    d <= sq_dist c f'
  end ->
  match fold_left (Cell.sense_step c) l st with
  | None =>
      forall f', In f' (seen ++ l) -> CELL_SENSE_RADIUS ^ 2 < sq_dist c f'
  | Some (d, f) =>
      d = sq_dist c f /\ In f (seen ++ l) /\ d <= CELL_SENSE_RADIUS ^ 2
      /\ forall f', In f' (seen ++ l) ->
                    sq_dist c f' <= CELL_SENSE_RADIUS ^ 2 -> d <= sq_dist c f'
  end.
Proof.
  revert seen st. induction l as [| f l IH]; intros seen st H.
  - rewrite app_nil_r. exact H.
  - cbn [fold_left].
    replace (seen ++ f :: l) with ((seen ++ [f]) ++ l)
      by (rewrite <- app_assoc; reflexivity).
    apply IH. unfold Cell.sense_step. fold (sq_dist c f).
    destruct st as [[d0 f0] |].
    + destruct H as (Hd & Hin & Hr & Hmin).
      destruct (Rltb (sq_dist c f) d0) eqn:Hlt;
        [destruct (Rleb (sq_dist c f) (CELL_SENSE_RADIUS ^ 2)) eqn:Hle |];
        cbn [andb].
      * apply Rltb_true in Hlt. apply Rleb_true in Hle.
        split; [reflexivity |]. split; [apply in_or_app; right; left; reflexivity |].
        split; [exact Hle |]. intros f' Hf' Hr'.
        apply in_app_or in Hf'. destruct Hf' as [Hf' | [<- | []]]; [| lra].
        specialize (Hmin f' Hf' Hr'). lra.
      * apply Rltb_true in Hlt. apply Rleb_false in Hle. lra.
      * apply Rltb_false in Hlt.
        split; [exact Hd |]. split; [apply in_or_app; left; exact Hin |].
        split; [exact Hr |]. intros f' Hf' Hr'.
        apply in_app_or in Hf'. destruct Hf' as [Hf' | [<- | []]]; [| lra].
        apply (Hmin f' Hf' Hr').
    + cbn [andb].
      destruct (Rleb (sq_dist c f) (CELL_SENSE_RADIUS ^ 2)) eqn:Hle.
      * apply Rleb_true in Hle.
        split; [reflexivity |]. split; [apply in_or_app; right; left; reflexivity |].
        split; [exact Hle |]. intros f' Hf' Hr'.
        apply in_app_or in Hf'. destruct Hf' as [Hf' | [<- | []]]; [| lra].
        specialize (H f' Hf'). lra.
      * apply Rleb_false in Hle. intros f' Hf'.
        apply in_app_or in Hf'. destruct Hf' as [Hf' | [<- | []]]; auto.
Qed.

(** X7.  Sensing picks the nearest food within reach of the senses: the
    target, when there is one, is an item of the list within
    [CELL_SENSE_RADIUS] of the cell and no item of the list within that
    radius is nearer; there is no target exactly when every item of the list
    is farther than [CELL_SENSE_RADIUS]. *)
Theorem sense_nearest (c : Cell.t) (fs : list Food.t) :
  match Cell.sense c fs with
  | Some f =>
      In f fs /\ sq_dist c f <= CELL_SENSE_RADIUS ^ 2
      /\ forall f', In f' fs -> sq_dist c f' <= CELL_SENSE_RADIUS ^ 2 ->
                    sq_dist c f <= sq_dist c f'
  | None => forall f', In f' fs -> CELL_SENSE_RADIUS ^ 2 < sq_dist c f'
  end.
Proof.
  unfold Cell.sense.
  pose proof (sense_fold c fs [] None) as H. cbn [app] in H.
  destruct (fold_left (Cell.sense_step c) fs None) as [[d f] |];
    cbn [option_map snd].
  - destruct H as (-> & Hin & Hr & Hmin); [intros f' [] |]. auto.
  - apply H. intros f' [].
Qed.

(** The bounce, coordinate by coordinate: each coordinate is clamped to its
    margins, and the generator only advances. *)
Lemma bounce_position (c : Cell.t) (g : Rng) :
  Cell.x (fst (Cell.bounce c g))
  = clamp Cell.margin (WIDTH - Cell.margin) (Cell.x c)
  /\ Cell.y (fst (Cell.bounce c g))
     = clamp Cell.margin (HEIGHT - Cell.margin) (Cell.y c)
  /\ same_oracle g (snd (Cell.bounce c g)).
Proof.
  destruct c as [cx cy r br a s e col tr off].
  unfold Cell.bounce, clamp, same_oracle, Cell.margin, WIDTH, HEIGHT. run.
  case_walls; setters; cbn [fst snd unit_src int_src]; repeat split; lra.
Qed.

Lemma steer_wander (c : Cell.t) (g : Rng) :
  rng_ok g ->
  exists r,
    - (2 / 100) <= r <= 2 / 100
    /\ Cell.steer c None g = (Cell.set_angle c (Cell.angle c + r), advance g).
Proof.
  intros Hg.
  destruct (uniform_range (- (2 / 100)) (2 / 100) g Hg ltac:(lra)) as [Hr _].
  exists (fst (uniform (- (2 / 100)) (2 / 100) g)).
  split; [exact Hr |]. unfold Cell.steer. draw_all. reflexivity.
Qed.

Lemma steer_oracle (c : Cell.t) (target : option Food.t) (g : Rng) :
  same_oracle g (snd (Cell.steer c target g)).
Proof.
  destruct target; unfold Cell.steer; draw_all; split; reflexivity.
Qed.

(** [update] up to the eating loop, with the position spelled out: [a1] is
    the heading after steering, the position is the moved position clamped
    to the margins. *)
Lemma advance_cell_detail (c : Cell.t) (dt : R) (fs : list Food.t) (g : Rng) :
  exists a1 a' g',
    let mx := clamp Cell.margin (WIDTH - Cell.margin)
                (Cell.x c + cos a1 * Cell.speed c) in
    let my := clamp Cell.margin (HEIGHT - Cell.margin)
                (Cell.y c + sin a1 * Cell.speed c) in
    Cell.advance_cell c dt fs g
    = (Cell.mk mx my (Cell.radius c) (Cell.base_radius c) a' (Cell.speed c)
         (decayed (Cell.energy c) dt) (Cell.color c)
         (Cell.deque_append (Cell.trail c) (mx, my)) (Cell.time_offset c), g')
    /\ (strictly_inside mx my -> a' = a1)
    /\ (Cell.sense c fs = None -> rng_ok g ->
        - (2 / 100) <= a1 - Cell.angle c <= 2 / 100)
    /\ same_oracle g g'.
Proof.
  unfold Cell.advance_cell. rewrite decay_shape.
  set (c1 := Cell.set_energy c (decayed (Cell.energy c) dt)).
  assert (Hs : Cell.sense c1 fs = Cell.sense c fs)
    by (apply sense_position; reflexivity).
  rewrite Hs. unfold bind at 1.
  pose proof (steer_oracle c1 (Cell.sense c fs) g) as Ho1.
  destruct (steer_shape c1 (Cell.sense c fs) g) as (a1 & g1 & Es & _).
  assert (Hw : Cell.sense c fs = None -> rng_ok g ->
               - (2 / 100) <= a1 - Cell.angle c <= 2 / 100).
  { intros Hn Hg. rewrite Hn in Es.
    destruct (steer_wander c1 g Hg) as (r & Hr & Er).
    rewrite Er in Es. inversion Es as [[Ha Hg1]].
    destruct c as [cx cy r0 br a s e col tr off].
    cbn [Cell.angle Cell.set_energy c1] in *. lra. }
  rewrite Es in Ho1 |- *. cbn [snd] in Ho1. unfold bind at 1.
  set (m := Cell.move (Cell.set_angle c1 a1)).
  destruct (bounce_position m g1) as (Hx & Hy & Ho2).
  destruct (bounce_shape m g1) as (x' & y' & a' & g' & Eb & _ & Hfree).
  rewrite Eb in Hx, Hy, Ho2 |- *. cbn [fst snd] in Hx, Hy, Ho2.
  exists a1, a', g'.
  subst m c1. destruct c as [cx cy r0 br a s e col tr off].
  cbn [Cell.x Cell.y Cell.angle Cell.speed Cell.move Cell.set_angle
       Cell.set_x Cell.set_y Cell.set_energy Cell.radius Cell.base_radius
       Cell.energy Cell.color Cell.trail Cell.time_offset] in *.
  subst x' y'. split; [reflexivity |]. split.
  - intros Hin. apply Hfree. right. exact Hin.
  - split; [exact Hw |]. eapply same_oracle_trans; eassumption.
Qed.

(** X8.  The random walk is a small one: a cell that senses no food, and
    whose position when [update] returns is strictly within the margins,
    has its heading changed by at most 0.02, under a well-formed
    generator. *)
Theorem wander_turn_bounded (c : Cell.t) (dt : R) (fs : list Food.t)
        (all_cells : list Cell.t) (time : R) (g : Rng) :
  rng_ok g ->
  Cell.sense c fs = None ->
  strictly_inside (Cell.x (cell_of (Cell.update c dt fs all_cells time g)))
                  (Cell.y (cell_of (Cell.update c dt fs all_cells time g))) ->
  Rabs (Cell.angle (cell_of (Cell.update c dt fs all_cells time g))
        - Cell.angle c) <= 2 / 100.
Proof.
  intros Hg Hs.
  destruct (update_keeps_advance c dt fs all_cells time g)
    as (Ex & Ey & Ea & _).
  rewrite Ex, Ey, Ea.
  destruct (advance_cell_detail c dt fs g)
    as (a1 & a' & g' & E & Hfree & Hw & _).
  cbv zeta in E. rewrite E. cbn [fst Cell.x Cell.y Cell.angle].
  intros Hin. rewrite (Hfree Hin). apply Rabs_le. specialize (Hw Hs Hg). lra.
Qed.

Lemma rng_mid_ok : rng_ok rng_mid.
Proof. intros n. unfold rng_mid. cbn [unit_src]. lra. Qed.

(** A sample cell well inside the world is strictly within the margins
    after any update. *)
Lemma sample_cell_stays_inside (x0 y0 h e dt : R) (fs : list Food.t)
      (all_cells : list Cell.t) (time : R) (g : Rng) :
  10 <= x0 <= 890 -> 10 <= y0 <= 590 ->
  strictly_inside
    (Cell.x (cell_of (Cell.update (sample_cell x0 y0 h e) dt fs
                        all_cells time g)))
    (Cell.y (cell_of (Cell.update (sample_cell x0 y0 h e) dt fs
                        all_cells time g))).
Proof.
  intros Hx Hy.
  destruct (update_keeps_advance (sample_cell x0 y0 h e) dt fs all_cells
              time g) as (Ex & Ey & _).
  rewrite Ex, Ey.
  destruct (advance_cell_shape (sample_cell x0 y0 h e) dt fs g)
    as (a1 & g1 & x' & y' & a' & g' & E & _ & _ & Hfree).
  pose proof (COS_bound a1) as Hc. pose proof (SIN_bound a1) as Hs.
  destruct Hfree as (Hx' & Hy' & _).
  { left. unfold inside, Cell.margin, WIDTH, HEIGHT.
    cbn [Cell.x Cell.y Cell.speed sample_cell]. lra. }
  rewrite E. cbn [fst Cell.x Cell.y]. subst x' y'.
  unfold strictly_inside, Cell.margin, WIDTH, HEIGHT.
  cbn [Cell.x Cell.y Cell.speed sample_cell]. lra.
Qed.

Lemma wander_turn_bounded_witness :
  Rabs (Cell.angle (cell_of (Cell.update left_cell (16 / 1000) []
                               [left_cell] 0 rng_mid))
        - Cell.angle left_cell) <= 2 / 100.
Proof.
  apply (wander_turn_bounded left_cell (16 / 1000) [] [left_cell] 0 rng_mid).
  - exact rng_mid_ok.
  - reflexivity.
  - apply sample_cell_stays_inside; lra.
Defined.


Lemma deque_append_length (d : list (R * R)) (p : R * R) :
  (List.length d <= Cell.trail_maxlen)%nat ->
  List.length (Cell.deque_append d p)
  = Nat.min Cell.trail_maxlen (S (List.length d)).
Proof.
  unfold Cell.deque_append, Cell.trail_maxlen. intros H.
  destruct (Nat.leb_spec 8 (List.length d)).
  - rewrite length_app. destruct d as [| q d]; cbn [List.length tl] in *; lia.
  - rewrite length_app. cbn [List.length]. lia.
Qed.

Lemma deque_append_last (d : list (R * R)) (p q : R * R) :
  last (Cell.deque_append d p) q = p.
Proof.
  unfold Cell.deque_append.
  destruct (Cell.trail_maxlen <=? List.length d)%nat; apply last_last.
Qed.

(** X11.  The trail is a bounded record of the latest positions: after
    [update], a trail of at most 8 positions has one position more, capped
    at 8; its most recent entry is the position the cell now has; and a full
    trail has lost its oldest entry and nothing else. *)
Theorem update_trail_bounded (c : Cell.t) (dt : R) (fs : list Food.t)
        (all_cells : list Cell.t) (time : R) (g : Rng) :
  (List.length (Cell.trail c) <= 8)%nat ->
  let c' := cell_of (Cell.update c dt fs all_cells time g) in
  List.length (Cell.trail c') = Nat.min 8 (S (List.length (Cell.trail c)))
  /\ last (Cell.trail c') (0, 0) = (Cell.x c', Cell.y c')
  /\ (List.length (Cell.trail c) = 8%nat ->
      Cell.trail c' = tl (Cell.trail c) ++ [(Cell.x c', Cell.y c')]).
Proof.
  intros Hlen c'. subst c'.
  destruct (update_keeps_advance c dt fs all_cells time g)
    as (Ex & Ey & _ & Et).
  rewrite Ex, Ey, Et.
  destruct (advance_cell_shape c dt fs g)
    as (a1 & g1 & x' & y' & a' & g' & E & _).
  rewrite E. cbn [fst Cell.x Cell.y Cell.trail].
  split; [apply deque_append_length; exact Hlen |].
  split; [apply deque_append_last |].
  intros H8. unfold Cell.deque_append, Cell.trail_maxlen. rewrite H8.
  reflexivity.
Qed.

Lemma update_trail_bounded_witness :
  List.length (Cell.trail (cell_of (Cell.update left_cell (16 / 1000)
                                      [shared_food] [left_cell] 0 rng_mid)))
  = 1%nat.
Proof.
  apply (update_trail_bounded left_cell (16 / 1000) [shared_food]
           [left_cell] 0 rng_mid).
  cbn [Cell.trail left_cell sample_cell List.length]. lia.
Defined.

Lemma eat_scan_none_inv (c : Cell.t) (fs : list Food.t) :
  Cell.eat_scan c fs = None ->
  Forall (fun f' => Cell.in_reach c f' = false) fs.
Proof.
  induction fs as [| f fs IH]; intros E; [constructor |].
  cbn [Cell.eat_scan] in E.
  destruct (Cell.in_reach c f) eqn:Hf; [discriminate |].
  destruct (Cell.eat_scan c fs); [discriminate |].
  constructor; [exact Hf | apply IH; reflexivity].
Qed.

(** X12.  What [update] does to the shared food list.  When it answers
    nothing, the list is untouched and no item of it is within eating range
    of the cell where it now stands.  When it answers ["ate"], exactly one
    item has been taken out, the others are kept in order, and the item
    taken is the first one of the list within eating range. *)
Theorem update_foods_effect (c : Cell.t) (dt : R) (fs : list Food.t)
        (all_cells : list Cell.t) (time : R) (g : Rng) :
  let r := Cell.update c dt fs all_cells time g in
  match signal_of r with
  | None =>
      foods_of r = fs
      /\ Forall (fun f => Cell.in_reach (cell_of r) f = false) fs
  | Some _ =>
      exists l1 f l2,
        fs = l1 ++ f :: l2 /\ foods_of r = l1 ++ l2
        /\ Cell.in_reach (cell_of r) f = true
        /\ Forall (fun f' => Cell.in_reach (cell_of r) f' = false) l1
  end.
Proof.
  rewrite update_unfold. cbv zeta.
  set (c1 := fst (Cell.advance_cell c dt fs g)).
  destruct (Cell.eat_scan c1 fs) as [fs' |] eqn:E;
    unfold signal_of, cell_of, foods_of; cbn [fst snd].
  - apply eat_scan_some in E.
    destruct E as (l1 & f & l2 & -> & -> & Hf & Hl).
    exists l1, f, l2. auto.
  - split; [reflexivity |]. apply eat_scan_none_inv. exact E.
Qed.

(** X13.  Starving: a call of [update] with [dt > 0] in which the cell does
    not eat leaves it with strictly less energy, and with exactly
    [ENERGY_LOSS_PER_SEC * dt] less when the cell was not above the cap. *)
Theorem update_starving (c : Cell.t) (dt : R) (fs : list Food.t)
        (all_cells : list Cell.t) (time : R) (g : Rng) :
  0 < dt ->
  signal_of (Cell.update c dt fs all_cells time g) = None ->
  Cell.energy (cell_of (Cell.update c dt fs all_cells time g))
  < Cell.energy c
  /\ (Cell.energy c - ENERGY_LOSS_PER_SEC * dt <= MAX_ENERGY ->
      Cell.energy (cell_of (Cell.update c dt fs all_cells time g))
      = Cell.energy c - ENERGY_LOSS_PER_SEC * dt).
Proof.
  intros Hdt Hs.
  destruct (update_energy c dt fs all_cells time g) as [[_ He] | [Hs' _]];
    [| congruence].
  rewrite He. unfold decayed, ENERGY_LOSS_PER_SEC, MAX_ENERGY.
  destruct (Rlt_dec _ _); split; intros; lra.
Qed.

Lemma update_starving_witness :
  Cell.energy (cell_of (Cell.update left_cell (16 / 1000) []
                          [left_cell] 0 rng_mid))
  < Cell.energy left_cell.
Proof.
  apply (update_starving left_cell (16 / 1000) [] [left_cell] 0 rng_mid).
  - lra.
  - rewrite update_unfold. reflexivity.
Defined.

Lemma bounce_heading_range (c : Cell.t) (g : Rng) :
  rng_ok g ->
  let c' := fst (Cell.bounce c g) in
  (Cell.y c < Cell.margin -> 0 <= Cell.angle c' <= PI)
  /\ (HEIGHT - Cell.margin < Cell.y c -> - PI <= Cell.angle c' <= 0)
  /\ (Cell.margin <= Cell.y c <= HEIGHT - Cell.margin ->
      (Cell.x c < Cell.margin -> - (PI / 2) <= Cell.angle c' <= PI / 2)
      /\ (WIDTH - Cell.margin < Cell.x c ->
          PI / 2 <= Cell.angle c' <= 3 * (PI / 2))).
Proof.
  intros Hg.
  pose proof (Hg (draws g)) as H0.
  pose proof (Hg (S (draws g))) as H1.
  pose proof (Hg (S (S (draws g)))) as H2.
  pose proof (Hg (S (S (S (draws g))))) as H3.
  pose proof PI_RGT_0 as Hpi.
  assert (P0 : 0 <= PI * unit_src g (draws g) <= PI) by nra.
  assert (P1 : 0 <= PI * unit_src g (S (draws g)) <= PI) by nra.
  assert (P2 : 0 <= PI * unit_src g (S (S (draws g))) <= PI) by nra.
  assert (P3 : 0 <= PI * unit_src g (S (S (S (draws g)))) <= PI) by nra.
  destruct c as [cx cy r br a s e col tr off].
  unfold Cell.bounce, Cell.margin, WIDTH, HEIGHT. run.
  case_walls; setters; cbn [fst]; setters;
    repeat split; intros; try lra.
Qed.

(** X14.  The bounce sends the cell back inside, and the last wall test
    that fires decides: under a well-formed generator, a cell that crossed
    the top margin leaves with a heading that does not point up
    ([sin >= 0]), one that crossed the bottom margin with a heading that
    does not point down, whatever its [x]; a cell that crossed only the left
    margin leaves with a heading that does not point left ([cos >= 0]), one
    that crossed only the right margin with a heading that does not point
    right. *)
Theorem bounce_heading_inward (c : Cell.t) (g : Rng) :
  rng_ok g ->
  let c' := fst (Cell.bounce c g) in
  (Cell.y c < Cell.margin -> 0 <= sin (Cell.angle c'))
  /\ (HEIGHT - Cell.margin < Cell.y c -> sin (Cell.angle c') <= 0)
  /\ (Cell.margin <= Cell.y c <= HEIGHT - Cell.margin ->
      (Cell.x c < Cell.margin -> 0 <= cos (Cell.angle c'))
      /\ (WIDTH - Cell.margin < Cell.x c -> cos (Cell.angle c') <= 0)).
Proof.
  intros Hg c'.
  destruct (bounce_heading_range c g Hg) as (Ht & Hb & Hx). fold c' in Ht, Hb, Hx.
  split; [| split].
  - intros H. apply sin_ge_0; apply Ht; exact H.
  - intros H. specialize (Hb H).
    rewrite <- (Ropp_involutive (Cell.angle c')). rewrite sin_neg.
    assert (0 <= sin (- Cell.angle c')) by (apply sin_ge_0; lra). lra.
  - intros Hy. destruct (Hx Hy) as [Hl Hr]. split; intros H.
    + apply cos_ge_0; apply (Hl H).
    + apply cos_le_0; apply (Hr H).
Qed.

Lemma bounce_heading_inward_witness :
  0 <= cos (Cell.angle (fst (Cell.bounce (sample_cell 4 300 PI 50) rng_mid))).
Proof.
  destruct (bounce_heading_inward (sample_cell 4 300 PI 50) rng_mid rng_mid_ok)
    as (_ & _ & Hx).
  apply Hx.
  - unfold Cell.margin, HEIGHT. cbn [Cell.y sample_cell]. lra.
  - unfold Cell.margin. cbn [Cell.x sample_cell]. lra.
Defined.

(** ** [Cell.draw] *)

Lemma breathe_range (time off : R) :
  92 / 100 <= 1 + 8 / 100 * sin (time * 3 + off) <= 108 / 100.
Proof. pose proof (SIN_bound (time * 3 + off)). lra. Qed.

(** X15.  Breathing keeps a cell alive and in shape: for a cell of base
    radius at least 2, the radius [draw] assigns is positive and lies
    between 92% of the base radius, less one for the truncation, and 108% of
    it; the base radius, the energy and the position are not touched, so
    drawing never changes whether the cell is dead. *)
Theorem draw_radius_bounds (c : Cell.t) (time : R) :
  (2 <= Cell.base_radius c)%Z ->
  let c' := Cell.draw c time in
  (0 < Cell.radius c')%Z
  /\ IZR (Cell.base_radius c) * (92 / 100) - 1 < IZR (Cell.radius c')
  /\ IZR (Cell.radius c') <= IZR (Cell.base_radius c) * (108 / 100)
  /\ Cell.base_radius c' = Cell.base_radius c
  /\ Cell.energy c' = Cell.energy c
  /\ Cell.x c' = Cell.x c /\ Cell.y c' = Cell.y c
  /\ Cell.is_dead c' = Rleb (Cell.energy c) 0.
Proof.
  intros Hb c'. subst c'. unfold Cell.draw. cbv zeta.
  cbn [Cell.radius Cell.base_radius Cell.energy Cell.x Cell.y
       Cell.set_radius].
  pose proof (breathe_range time (Cell.time_offset c)) as Hbr.
  set (br := 1 + 8 / 100 * sin (time * 3 + Cell.time_offset c)) in *.
  assert (Hb' : 2 <= IZR (Cell.base_radius c)) by (apply (IZR_le 2); exact Hb).
  set (b := IZR (Cell.base_radius c)) in *.
  assert (Hp : 1 <= b * br) by nra.
  destruct (py_int_nonneg (b * br) ltac:(lra)) as (_ & Hlo & Hhi).
  assert (H1 : (1 <= py_int (b * br))%Z).
  { apply py_int_ge; [exact Hp | lia]. }
  split; [lia |]. split; [nra |]. split; [nra |].
  repeat (split; [reflexivity |]).
  unfold Cell.is_dead. cbn [Cell.radius Cell.energy Cell.set_radius].
  replace (py_int (b * br) <=? 0)%Z with false
    by (symmetry; apply Z.leb_gt; lia).
  apply orb_false_r.
Qed.

Lemma draw_radius_bounds_witness :
  (0 < Cell.radius (Cell.draw left_cell 0))%Z.
Proof.
  apply (draw_radius_bounds left_cell 0).
  cbn [Cell.base_radius left_cell sample_cell]. lia.
Defined.

(** X16.  The smallest cells never reproduce: once drawn, a cell whose base
    radius is at most [CELL_MIN_RADIUS] has a radius of at most 8, below the
    [CELL_MIN_RADIUS + 1] that [can_split] asks for, whatever its energy
    and the time of the frame. *)
Theorem draw_small_cannot_split (c : Cell.t) (time : R) :
  (Cell.base_radius c <= CELL_MIN_RADIUS)%Z ->
  Cell.can_split (Cell.draw c time) = false.
Proof.
  unfold CELL_MIN_RADIUS. intros Hb.
  unfold Cell.can_split, Cell.draw, CELL_MIN_RADIUS. cbv zeta.
  cbn [Cell.radius Cell.energy Cell.set_radius].
  pose proof (breathe_range time (Cell.time_offset c)) as Hbr.
  set (br := 1 + 8 / 100 * sin (time * 3 + Cell.time_offset c)) in *.
  assert (Hb' : IZR (Cell.base_radius c) <= 8) by (apply (IZR_le _ 8); exact Hb).
  set (b := IZR (Cell.base_radius c)) in *.
  apply andb_false_intro2. apply Z.leb_gt.
  destruct (Rle_dec 0 b) as [Hp | Hn].
  - assert ((py_int (b * br) <= 8)%Z); [| lia].
    apply py_int_le; [nra |]. change (IZR 8) with 8. nra.
  - assert ((py_int (b * br) <= 0)%Z); [| lia].
    apply py_int_nonpos. nra.
Qed.

Lemma draw_small_cannot_split_witness :
  Cell.can_split (Cell.draw (Cell.mk 450 300 8 8 0 (46 / 36) 90
                               (200, 120, 80)%Z [] 0) 1) = false.
Proof.
  apply draw_small_cannot_split.
  cbn [Cell.base_radius]. unfold CELL_MIN_RADIUS. lia.
Defined.

Lemma py_int_IZR (z : Z) : (0 <= z)%Z -> py_int (IZR z) = z.
Proof.
  intros Hz. unfold py_int.
  destruct (Rle_dec 0 (IZR z)) as [_ | N].
  - apply ZfloorZ.
  - exfalso. apply N. apply (IZR_le 0). exact Hz.
Qed.

(** X17.  The energy bar always fits its frame: for a cell of non-negative
    radius, the filled width lies between 0 and the width of the bar,
    whatever the energy; it is the whole bar when the energy is at or above
    [MAX_ENERGY], and nothing when the energy is at or below 0. *)
Theorem energy_bar_fits (c : Cell.t) :
  (0 <= Cell.radius c)%Z ->
  (0 <= snd (Cell.energy_bar c) <= fst (Cell.energy_bar c))%Z
  /\ (MAX_ENERGY <= Cell.energy c ->
      snd (Cell.energy_bar c) = fst (Cell.energy_bar c))
  /\ (Cell.energy c <= 0 -> snd (Cell.energy_bar c) = 0%Z).
Proof.
  intros Hr. unfold Cell.energy_bar. cbv zeta. cbn [fst snd].
  assert (Hr' : 0 <= IZR (Cell.radius c)) by (apply (IZR_le 0); exact Hr).
  destruct (py_int_nonneg (IZR (Cell.radius c) * (18 / 10)) ltac:(nra))
    as (Hw & _).
  set (bar_w := py_int (IZR (Cell.radius c) * (18 / 10))) in *.
  assert (Hw' : 0 <= IZR bar_w) by (apply (IZR_le 0); exact Hw).
  set (frac := py_max 0 (py_min MAX_ENERGY (Cell.energy c)) / MAX_ENERGY).
  assert (Hf : 0 <= frac <= 1
               /\ (MAX_ENERGY <= Cell.energy c -> frac = 1)
               /\ (Cell.energy c <= 0 -> frac = 0)).
  { subst frac. unfold py_max, py_min, MAX_ENERGY.
    repeat destruct Rlt_dec; repeat split; intros; lra. }
  destruct Hf as (Hf & Hfull & Hempty).
  destruct (py_int_nonneg (IZR bar_w * frac) ltac:(nra)) as (H0 & _).
  split; [split; [exact H0 |] |].
  - apply py_int_le; [nra | nra].
  - split; intros H.
    + rewrite (Hfull H), Rmult_1_r. apply py_int_IZR. exact Hw.
    + rewrite (Hempty H), Rmult_0_r. change 0 with (IZR 0).
      apply py_int_IZR. lia.
Qed.

Lemma energy_bar_fits_witness :
  (0 <= snd (Cell.energy_bar fed_cell) <= fst (Cell.energy_bar fed_cell))%Z.
Proof.
  apply (energy_bar_fits fed_cell).
  cbn [Cell.radius fed_cell sample_cell]. lia.
Defined.

(** ** [lerp] and [gradient_bg] *)

Lemma gradient_channel (t b : Z) (y h : nat) :
  (0 <= t <= b)%Z -> (y < h)%nat ->
  (t <= py_int (lerp (IZR t) (IZR b) (INR y / INR h)) <= b)%Z
  /\ ((t < b)%Z -> (py_int (lerp (IZR t) (IZR b) (INR y / INR h)) < b)%Z)
  /\ (y = 0%nat -> py_int (lerp (IZR t) (IZR b) (INR y / INR h)) = t).
Proof.
  intros [Ht Htb] Hy.
  assert (Hh : 0 < INR h) by (apply lt_0_INR; lia).
  assert (Hy0 : 0 <= INR y) by apply pos_INR.
  assert (Hyh : INR y < INR h) by (apply lt_INR; exact Hy).
  assert (Hu : 0 <= INR y / INR h < 1).
  { split.
    - apply Rmult_le_pos; [exact Hy0 |].
      apply Rlt_le. apply Rinv_0_lt_compat. exact Hh.
    - apply (Rmult_lt_reg_r (INR h)); [exact Hh |].
      unfold Rdiv. rewrite Rmult_assoc, Rinv_l by lra. lra. }
  set (u := INR y / INR h) in *.
  assert (Ht' : 0 <= IZR t) by (apply (IZR_le 0); exact Ht).
  assert (Htb' : IZR t <= IZR b) by (apply IZR_le; exact Htb).
  unfold lerp.
  assert (Hlo : IZR t <= IZR t + (IZR b - IZR t) * u) by nra.
  assert (Hhi : IZR t + (IZR b - IZR t) * u <= IZR b) by nra.
  split; [split |]; [| | split].
  - apply py_int_ge; [exact Hlo | exact Ht].
  - apply py_int_le; lra.
  - intros Hlt.
    assert (Hlt' : IZR t < IZR b) by (apply IZR_lt; exact Hlt).
    assert (py_int (IZR t + (IZR b - IZR t) * u) <= b - 1)%Z; [| lia].
    apply py_int_le; [lra |]. rewrite minus_IZR. nra.
  - intros ->. subst u. unfold Rdiv. cbn [INR]. rewrite Rmult_0_l, Rmult_0_r, Rplus_0_r.
    apply py_int_IZR. exact Ht.
Qed.

(** X19.  The background gradient, for a top color whose channels are
    non-negative and at most those of the bottom color: one line per row of
    the surface (none, and no division, for a surface of height 0); in every
    line each channel lies between the top and the bottom value, and stays
    strictly below the bottom value where the two differ, so the bottom
    color itself is never drawn; the first line has the top color. *)
Theorem gradient_bg_between (height : nat) (t0 t1 t2 b0 b1 b2 : Z) :
  (0 <= t0 <= b0)%Z -> (0 <= t1 <= b1)%Z -> (0 <= t2 <= b2)%Z ->
  List.length (gradient_bg height (t0, t1, t2) (b0, b1, b2)) = height
  /\ Forall (fun col => let '(r, g, b) := col in
                        (t0 <= r <= b0 /\ t1 <= g <= b1 /\ t2 <= b <= b2)
                        /\ (t0 < b0 -> r < b0) /\ (t1 < b1 -> g < b1)
                        /\ (t2 < b2 -> b < b2))%Z
            (gradient_bg height (t0, t1, t2) (b0, b1, b2))
  /\ ((0 < height)%nat ->
      hd_error (gradient_bg height (t0, t1, t2) (b0, b1, b2))
      = Some (t0, t1, t2)).
Proof.
  intros H0 H1 H2. unfold gradient_bg. split; [| split].
  - rewrite length_map, length_seq. reflexivity.
  - apply Forall_forall. intros col Hin. apply in_map_iff in Hin.
    destruct Hin as (y & <- & Hy). apply in_seq in Hy.
    unfold gradient_row.
    destruct (gradient_channel t0 b0 y height H0 ltac:(lia)) as (A1 & A2 & _).
    destruct (gradient_channel t1 b1 y height H1 ltac:(lia)) as (B1 & B2 & _).
    destruct (gradient_channel t2 b2 y height H2 ltac:(lia)) as (C1 & C2 & _).
    auto 10.
  - intros Hh. destruct height as [| h]; [lia |].
    cbn [seq map hd_error]. unfold gradient_row.
    destruct (gradient_channel t0 b0 0 (S h) H0 ltac:(lia)) as (_ & _ & A).
    destruct (gradient_channel t1 b1 0 (S h) H1 ltac:(lia)) as (_ & _ & B).
    destruct (gradient_channel t2 b2 0 (S h) H2 ltac:(lia)) as (_ & _ & C).
    rewrite A, B, C by reflexivity. reflexivity.
Qed.

Lemma gradient_bg_between_witness :
  hd_error (gradient_bg 3 BACKGROUND_TOP BACKGROUND_BOTTOM)
  = Some BACKGROUND_TOP.
Proof.
  apply (gradient_bg_between 3 15 20 30 30 40 60); lia.
Defined.

(** ** The event handlers and the frame *)

Lemma handle_event_settings (w : World) (e : Event) (g : Rng) :
  let w' := fst (handle_event w e g) in
  time_accum w' = time_accum w
  /\ (running w = false -> running w' = false)
  /\ (e = QUIT -> running w' = false)
  /\ (25 / 100 <= speed_multiplier w <= 4 ->
      25 / 100 <= speed_multiplier w' <= 4).
Proof.
  destruct e as [| k | b [mx my] |]; [| destruct k | |];
    unfold handle_event;
    try (unfold bind; destruct (repeatM _ _ g) as [l g1]);
    try destruct (b =? 1)%Z;
    unfold ret; cbn [fst time_accum running speed_multiplier];
    repeat split; try discriminate; auto;
    unfold py_min, py_max; intros; repeat destruct Rlt_dec; lra.
Qed.

Lemma handle_events_settings (es : list Event) (w : World) (g : Rng) :
  let w' := fst (handle_events w es g) in
  time_accum w' = time_accum w
  /\ (running w = false -> running w' = false)
  /\ (In QUIT es -> running w' = false)
  /\ (25 / 100 <= speed_multiplier w <= 4 ->
      25 / 100 <= speed_multiplier w' <= 4).
Proof.
  revert w g. induction es as [| e es IH]; intros w g.
  - cbn [handle_events]. unfold ret. cbn [fst].
    split; [reflexivity |]. split; [auto |]. split; [intros [] | auto].
  - cbn [handle_events]. unfold bind.
    destruct (handle_event_settings w e g) as (Ht & Hr & Hq & Hs).
    destruct (handle_event w e g) as [w1 g1]. cbn [fst] in Ht, Hr, Hq, Hs.
    destruct (IH w1 g1) as (Ht' & Hr' & Hq' & Hs').
    split; [congruence |]. split; [auto |]. split; [| auto].
    intros [-> | Hin]; auto.
Qed.

Lemma tick_settings (dt : R) (w : World) (g : Rng) :
  let w' := fst (tick dt w g) in
  paused w' = paused w /\ speed_multiplier w' = speed_multiplier w
  /\ time_accum w' = time_accum w /\ running w' = running w.
Proof.
  unfold tick, bind.
  destruct (cell_pass dt (time_accum w) (cells w) (foods w) (total_births w) g).
  cbn. auto.
Qed.

(** The frame, step by step. *)
Lemma frame_unfold (dt_ms : Z) (events : list Event) (w : World) (g : Rng) :
  let dt := IZR dt_ms / 1000 * speed_multiplier w in
  let w0 := mkWorld (cells w) (foods w) (total_births w) (paused w)
              (speed_multiplier w) (time_accum w + dt) (running w) in
  let r1 := handle_events w0 events g in
  let r2 := if paused (fst r1) then r1 else tick dt (fst r1) (snd r1) in
  frame dt_ms events w g
  = (mkWorld (map (fun c => Cell.draw c (time_accum (fst r2)))
                (cells (fst r2)))
       (foods (fst r2)) (total_births (fst r2)) (paused (fst r2))
       (speed_multiplier (fst r2)) (time_accum (fst r2)) (running (fst r2)),
     snd r2).
Proof.
  cbv zeta. unfold frame, bind.
  destruct (handle_events _ events g) as [w1 g1]. cbn [fst snd].
  destruct (paused w1); [reflexivity |].
  destruct (tick _ w1 g1) as [w2 g2]. reflexivity.
Qed.

Lemma frame_settings (dt_ms : Z) (events : list Event) (w : World) (g : Rng) :
  let w' := fst (frame dt_ms events w g) in
  time_accum w'
  = time_accum w + IZR dt_ms / 1000 * speed_multiplier w
  /\ (running w = false -> running w' = false)
  /\ (In QUIT events -> running w' = false)
  /\ (25 / 100 <= speed_multiplier w <= 4 ->
      25 / 100 <= speed_multiplier w' <= 4).
Proof.
  rewrite frame_unfold. cbv zeta. cbn [fst time_accum running speed_multiplier].
  set (w0 := mkWorld _ _ _ _ _ _ _).
  destruct (handle_events_settings events w0 g) as (Ht & Hr & Hq & Hs).
  set (r1 := handle_events w0 events g) in *.
  assert (Hsame : let r2 := if paused (fst r1) then r1
                            else tick (IZR dt_ms / 1000 * speed_multiplier w)
                                   (fst r1) (snd r1) in
                  speed_multiplier (fst r2) = speed_multiplier (fst r1)
                  /\ time_accum (fst r2) = time_accum (fst r1)
                  /\ running (fst r2) = running (fst r1)).
  { cbv zeta. destruct (paused (fst r1)); [auto |].
    destruct (tick_settings (IZR dt_ms / 1000 * speed_multiplier w)
                (fst r1) (snd r1)) as (_ & A & B & C). auto. }
  cbv zeta in Hsame. destruct Hsame as (A & B & C). rewrite A, B, C.
  subst w0. cbn [time_accum running speed_multiplier] in *. auto.
Qed.

(** X20.  The speed multiplier stays in its range: if it lies between 0.25
    and 4 when the loop starts (it starts at 1), it still does after any
    number of frames, whatever keys are pressed. *)
Theorem speed_multiplier_bounded (inputs : list (Z * list Event))
        (w : World) (g : Rng) :
  25 / 100 <= speed_multiplier w <= 4 ->
  25 / 100 <= speed_multiplier (fst (main_loop inputs w g)) <= 4.
Proof.
  revert w g. induction inputs as [| [dt_ms events] rest IH]; intros w g H.
  - exact H.
  - cbn [main_loop]. destruct (running w); [| exact H].
    unfold bind.
    destruct (frame_settings dt_ms events w g) as (_ & _ & _ & Hs).
    destruct (frame dt_ms events w g) as [w1 g1]. cbn [fst] in Hs.
    apply IH. apply Hs. exact H.
Qed.

Lemma speed_multiplier_bounded_witness :
  25 / 100
  <= speed_multiplier
       (fst (main_loop [(16%Z, [KEYDOWN K_UP; KEYDOWN K_UP])]
               (mkWorld [] [] 0 true (375 / 100) 0 true) rng_mid)) <= 4.
Proof.
  apply (speed_multiplier_bounded
           [(16%Z, [KEYDOWN K_UP; KEYDOWN K_UP])]
           (mkWorld [] [] 0 true (375 / 100) 0 true) rng_mid).
  cbn [speed_multiplier]. lra.
Defined.

(** X21.  Closing the window ends the loop after the current frame: when
    the events of a frame contain [QUIT], the frame is still carried out in
    full, it leaves [running] false whatever the other events are, and no
    later frame is run. *)
Theorem quit_stops_loop (dt_ms : Z) (events : list Event)
        (rest : list (Z * list Event)) (w : World) (g : Rng) :
  running w = true -> In QUIT events ->
  main_loop ((dt_ms, events) :: rest) w g = frame dt_ms events w g
  /\ running (fst (frame dt_ms events w g)) = false.
Proof.
  intros Hr Hq.
  destruct (frame_settings dt_ms events w g) as (_ & _ & Hquit & _).
  specialize (Hquit Hq). split; [| exact Hquit].
  cbn [main_loop]. rewrite Hr. unfold bind.
  destruct (frame dt_ms events w g) as [w1 g1]. cbn [fst] in Hquit.
  destruct rest as [| [d es] rest]; cbn [main_loop]; [reflexivity |].
  rewrite Hquit. reflexivity.
Qed.

Lemma quit_stops_loop_witness :
  running (fst (frame 16 [KEYDOWN K_SPACE; QUIT; KEYDOWN K_f]
                  (mkWorld [] [] 0 false 1 0 true) rng_mid)) = false.
Proof.
  apply (quit_stops_loop 16 [KEYDOWN K_SPACE; QUIT; KEYDOWN K_f] []
           (mkWorld [] [] 0 false 1 0 true) rng_mid).
  - reflexivity.
  - right. left. reflexivity.
Defined.

(** X22.  The clock of the simulation: every frame, paused or not, adds to
    [time_accum] the elapsed milliseconds over 1000 times the speed
    multiplier the frame started with; a change of speed made by the events
    of the frame counts from the next frame on. *)
Theorem frame_clock (dt_ms : Z) (events : list Event) (w : World) (g : Rng) :
  time_accum (fst (frame dt_ms events w g))
  = time_accum w + IZR dt_ms / 1000 * speed_multiplier w.
Proof. apply (frame_settings dt_ms events w g). Qed.

(** X23.  Pause freezes the simulation but not the picture: a frame without
    events on a paused world leaves the food, the birth count and, cell by
    cell, the position, the heading, the energy and the trail as they were;
    the clock still advances and every cell is still redrawn with the
    breathing radius of the new time. *)
Theorem paused_frame_freezes (dt_ms : Z) (w : World) (g : Rng) :
  paused w = true ->
  let w' := fst (frame dt_ms [] w g) in
  foods w' = foods w
  /\ total_births w' = total_births w
  /\ cells w' = map (fun c => Cell.draw c (time_accum w')) (cells w)
  /\ map (fun c => (Cell.x c, Cell.y c, Cell.angle c, Cell.energy c,
                    Cell.trail c)) (cells w')
     = map (fun c => (Cell.x c, Cell.y c, Cell.angle c, Cell.energy c,
                      Cell.trail c)) (cells w)
  /\ snd (frame dt_ms [] w g) = g.
Proof.
  intros Hp. rewrite frame_unfold. cbv zeta.
  cbn [handle_events]. unfold ret. cbn [fst snd paused]. rewrite Hp.
  cbn [fst snd cells foods total_births time_accum].
  repeat (split; [reflexivity |]). split; [| reflexivity].
  rewrite map_map. apply map_ext. intros c. reflexivity.
Qed.

Lemma paused_frame_freezes_witness :
  foods (fst (frame 16 [] (mkWorld [left_cell] [shared_food] 0 true 1 0 true)
                rng_mid)) = [shared_food].
Proof.
  apply (paused_frame_freezes 16
           (mkWorld [left_cell] [shared_food] 0 true 1 0 true) rng_mid).
  reflexivity.
Defined.

Lemma repeatM_Forall {A : Type} (P : A -> Prop) (m : Rand A) :
  (forall g, rng_ok g -> P (fst (m g)) /\ same_oracle g (snd (m g))) ->
  forall n g, rng_ok g ->
    Forall P (fst (repeatM n m g)) /\ same_oracle g (snd (repeatM n m g)).
Proof.
  intros Hm. induction n as [| n IH]; intros g Hg; cbn [repeatM].
  - unfold ret. cbn [fst snd]. split; [constructor | apply same_oracle_refl].
  - unfold bind. destruct (Hm g Hg) as [Hp Ho].
    destruct (m g) as [a g1]. cbn [fst snd] in Hp, Ho.
    assert (Hg1 : rng_ok g1) by (eapply same_oracle_ok; eassumption).
    destruct (IH g1 Hg1) as [Hl Ho'].
    destruct (repeatM n m g1) as [l g2]. cbn [fst snd] in Hl, Ho' |- *.
    unfold ret. cbn [fst snd].
    split; [constructor; assumption | eapply same_oracle_trans; eassumption].
Qed.

Lemma seed_cell_spec (g : Rng) :
  rng_ok g ->
  (fresh_cell (fst (seed_cell g))
   /\ 50 <= Cell.x (fst (seed_cell g)) <= WIDTH - 50
   /\ 50 <= Cell.y (fst (seed_cell g)) <= HEIGHT - 50
   /\ Cell.is_dead (fst (seed_cell g)) = false)
  /\ same_oracle g (snd (seed_cell g)).
Proof.
  intros Hg.
  destruct (uniform_range 50 (WIDTH - 50) g Hg ltac:(unfold WIDTH; lra))
    as [Hx Ho1].
  destruct (uniform 50 (WIDTH - 50) g) as [x0 g1] eqn:E1.
  cbn [fst snd] in Hx, Ho1.
  assert (Hg1 : rng_ok g1) by (eapply same_oracle_ok; eassumption).
  destruct (uniform_range 50 (HEIGHT - 50) g1 Hg1 ltac:(unfold HEIGHT; lra))
    as [Hy Ho2].
  destruct (uniform 50 (HEIGHT - 50) g1) as [y0 g2] eqn:E2.
  cbn [fst snd] in Hy, Ho2.
  assert (Hg2 : rng_ok g2) by (eapply same_oracle_ok; eassumption).
  destruct (init_spec x0 y0 None g2)
    as (r & u & e & col & o & g3 & E & Ho3 & Hr & Hcol & Hrest).
  destruct (Hrest Hg2) as (Hu & He & _).
  destruct (fresh_record x0 y0 r u e col o Hr Hcol Hu He) as (Hf & Hd & _).
  cbv zeta in Hf, Hd.
  assert (Es : seed_cell g
               = (Cell.mk x0 y0 r r (u * 2 * PI)
                    (CELL_BASE_SPEED *
                       (1 + IZR (CELL_MAX_RADIUS - r)
                            / IZR (CELL_MAX_RADIUS * 2)))
                    e col [] o, g3)).
  { unfold seed_cell, bind. rewrite E1, E2. exact E. }
  rewrite Es. cbn [fst snd Cell.x Cell.y].
  split.
  - split; [exact Hf |]. split; [exact Hx |]. split; [exact Hy | exact Hd].
  - eapply same_oracle_trans; [exact Ho1 |].
    eapply same_oracle_trans; eassumption.
Qed.

(** X24.  Reset reseeds the world: after the R key, under a well-formed
    generator, there are exactly [INITIAL_CELLS] cells, no food and no
    births; every cell is freshly constructed, alive, and placed at least 50
    units inside the window on each side; pause and speed are kept. *)
Theorem reset_reseeds (w : World) (g : Rng) :
  rng_ok g ->
  let w' := fst (handle_event w (KEYDOWN K_r) g) in
  List.length (cells w') = INITIAL_CELLS
  /\ foods w' = [] /\ total_births w' = 0%Z
  /\ Forall (fun c => fresh_cell c
                      /\ 50 <= Cell.x c <= WIDTH - 50
                      /\ 50 <= Cell.y c <= HEIGHT - 50
                      /\ Cell.is_dead c = false) (cells w')
  /\ paused w' = paused w /\ speed_multiplier w' = speed_multiplier w.
Proof.
  intros Hg. unfold handle_event, bind.
  pose proof (repeatM_length INITIAL_CELLS seed_cell g) as Hlen.
  destruct (repeatM_Forall
              (fun c => fresh_cell c
                        /\ 50 <= Cell.x c <= WIDTH - 50
                        /\ 50 <= Cell.y c <= HEIGHT - 50
                        /\ Cell.is_dead c = false)
              seed_cell seed_cell_spec INITIAL_CELLS g Hg)
    as [Hall _].
  destruct (repeatM INITIAL_CELLS seed_cell g) as [cs g1].
  cbn [fst] in Hlen, Hall. unfold ret.
  cbn [fst cells foods total_births paused speed_multiplier]. auto 10.
Qed.

Lemma reset_reseeds_witness :
  List.length
    (cells (fst (handle_event full_world (KEYDOWN K_r) rng_mid)))
  = INITIAL_CELLS.
Proof. apply (reset_reseeds full_world rng_mid rng_mid_ok). Defined.

Lemma random_food_spec (g : Rng) :
  rng_ok g ->
  (20 <= Food.x (fst (random_food g)) <= WIDTH - 20
   /\ 20 <= Food.y (fst (random_food g)) <= HEIGHT - 20)
  /\ same_oracle g (snd (random_food g)).
Proof.
  intros Hg.
  destruct (uniform_range 20 (WIDTH - 20) g Hg ltac:(unfold WIDTH; lra))
    as [Hx Ho1].
  destruct (uniform 20 (WIDTH - 20) g) as [x0 g1] eqn:E1.
  cbn [fst snd] in Hx, Ho1.
  assert (Hg1 : rng_ok g1) by (eapply same_oracle_ok; eassumption).
  destruct (uniform_range 20 (HEIGHT - 20) g1 Hg1 ltac:(unfold HEIGHT; lra))
    as [Hy Ho2].
  destruct (uniform 20 (HEIGHT - 20) g1) as [y0 g2] eqn:E2.
  cbn [fst snd] in Hy, Ho2.
  assert (Es : random_food g = (Food.mk x0 y0, g2)).
  { unfold random_food, bind. rewrite E1, E2. reflexivity. }
  rewrite Es. cbn [fst snd Food.x Food.y].
  split; [auto |]. eapply same_oracle_trans; eassumption.
Qed.

(** X25.  The F key scatters food inside the window: under a well-formed
    generator, the ten items it appends all lie at least 20 units inside
    the window on each side; the items already there keep their place at
    the head of the list, and the cells are not touched. *)
Theorem food_key_scatters (w : World) (g : Rng) :
  rng_ok g ->
  exists fs : list Food.t,
    foods (fst (handle_event w (KEYDOWN K_f) g)) = foods w ++ fs
    /\ List.length fs = 10%nat
    /\ Forall (fun f => 20 <= Food.x f <= WIDTH - 20
                        /\ 20 <= Food.y f <= HEIGHT - 20) fs
    /\ cells (fst (handle_event w (KEYDOWN K_f) g)) = cells w.
Proof.
  intros Hg. unfold handle_event, bind.
  pose proof (repeatM_length 10 random_food g) as Hlen.
  destruct (repeatM_Forall
              (fun f => 20 <= Food.x f <= WIDTH - 20
                        /\ 20 <= Food.y f <= HEIGHT - 20)
              random_food random_food_spec 10 g Hg)
    as [Hall _].
  destruct (repeatM 10 random_food g) as [fs g1].
  cbn [fst] in Hlen, Hall. exists fs. unfold ret.
  cbn [fst cells foods]. auto.
Qed.

Lemma food_key_scatters_witness :
  exists fs : list Food.t,
    foods (fst (handle_event full_world (KEYDOWN K_f) rng_mid))
    = foods full_world ++ fs
    /\ List.length fs = 10%nat
    /\ Forall (fun f => 20 <= Food.x f <= WIDTH - 20
                        /\ 20 <= Food.y f <= HEIGHT - 20) fs
    /\ cells (fst (handle_event full_world (KEYDOWN K_f) rng_mid))
       = cells full_world.
Proof. apply (food_key_scatters full_world rng_mid rng_mid_ok). Defined.

(** ** The pass, counted *)

Lemma update_foods_length (c : Cell.t) (dt : R) (fs : list Food.t)
      (all_cells : list Cell.t) (time : R) (g : Rng) :
  exists j : nat,
    (j <= 1)%nat
    /\ List.length fs
       = (List.length (foods_of (Cell.update c dt fs all_cells time g)) + j)%nat.
Proof.
  rewrite update_unfold. cbv zeta.
  destruct (Cell.eat_scan _ fs) as [fs' |] eqn:E; unfold foods_of; cbn [fst snd].
  - apply eat_scan_some in E. destruct E as (l1 & f & l2 & -> & -> & _).
    exists 1%nat. split; [lia |]. rewrite !length_app. cbn [List.length]. lia.
  - exists 0%nat. split; lia.
Qed.

Lemma cell_step_counts (dt time : R) (st : Pass) (i : nat) (g : Rng) :
  exists k j : nat,
    (k <= 1)%nat /\ (j <= 1)%nat
    /\ List.length (new_cells (fst (cell_step dt time st i g)))
       = (List.length (new_cells st) + k)%nat
    /\ p_births (fst (cell_step dt time st i g))
       = (p_births st + Z.of_nat k)%Z
    /\ List.length (p_foods st)
       = (List.length (p_foods (fst (cell_step dt time st i g))) + j)%nat.
Proof.
  destruct (cell_step dt time st i g) as [st' g'] eqn:E. cbn [fst].
  unfold cell_step in E.
  destruct (nth_error (p_cells st) i) as [c |].
  2: { unfold ret in E. inversion E; subst st'.
       exists 0%nat, 0%nat. repeat split; lia. }
  unfold bind in E.
  destruct (update_foods_length c dt (p_foods st) (p_cells st) time g)
    as (j & Hj & Hlen).
  destruct (Cell.update c dt (p_foods st) (p_cells st) time g)
    as [[[res c1] fs1] g1].
  unfold foods_of in Hlen. cbn [fst snd] in Hlen.
  destruct (try_split c1 g1) as [[child c2] g2].
  unfold ret in E. inversion E; subst st'.
  cbn [new_cells p_births p_foods].
  destruct child as [ch |].
  - exists 1%nat, j. rewrite length_app. cbn [List.length].
    repeat split; try lia.
  - exists 0%nat, j. repeat split; try lia.
Qed.

Lemma for_each_counts (dt time : R) (idxs : list nat) (st : Pass) (g : Rng) :
  exists k j : nat,
    (k <= List.length idxs)%nat /\ (j <= List.length idxs)%nat
    /\ List.length (new_cells (fst (for_each dt time st idxs g)))
       = (List.length (new_cells st) + k)%nat
    /\ p_births (fst (for_each dt time st idxs g))
       = (p_births st + Z.of_nat k)%Z
    /\ List.length (p_foods st)
       = (List.length (p_foods (fst (for_each dt time st idxs g))) + j)%nat.
Proof.
  revert st g. induction idxs as [| i rest IH]; intros st g.
  - exists 0%nat, 0%nat. cbn [for_each]. unfold ret. cbn [fst List.length].
    repeat split; lia.
  - destruct (for_each dt time st (i :: rest) g) as [st' g'] eqn:E.
    cbn [fst]. cbn [for_each] in E. unfold bind in E.
    destruct (cell_step_counts dt time st i g)
      as (k1 & j1 & Hk1 & Hj1 & Hn1 & Hb1 & Hf1).
    destruct (cell_step dt time st i g) as [st1 g1].
    cbn [fst] in Hn1, Hb1, Hf1.
    destruct (IH st1 g1) as (k2 & j2 & Hk2 & Hj2 & Hn2 & Hb2 & Hf2).
    rewrite E in Hn2, Hb2, Hf2. cbn [fst] in Hn2, Hb2, Hf2.
    exists (k1 + k2)%nat, (j1 + j2)%nat. cbn [List.length].
    repeat split; try lia.
Qed.

Lemma drop_dead_length (cs : list Cell.t) (dead : list nat) :
  (List.length (drop_dead cs dead) <= List.length cs)%nat.
Proof.
  unfold drop_dead, enumerate. rewrite length_map.
  eapply Nat.le_trans; [apply filter_length_le |].
  rewrite length_combine, length_seq. lia.
Qed.

(** The live collection [tick] leaves: the cells of the pass that are not
    dead, then the children. *)
Lemma tick_cells (dt : R) (w : World) (g : Rng) :
  cells (fst (tick dt w g))
  = filter (fun c => negb (Cell.is_dead c))
      (p_cells (fst (cell_pass dt (time_accum w) (cells w) (foods w)
                       (total_births w) g)))
    ++ new_cells (fst (cell_pass dt (time_accum w) (cells w) (foods w)
                         (total_births w) g)).
Proof.
  destruct (cell_pass_inv dt (time_accum w) (cells w) (foods w)
              (total_births w) g) as (Hlen & _ & Hdead & _).
  unfold tick, bind.
  destruct (cell_pass dt (time_accum w) (cells w) (foods w)
              (total_births w) g) as [st g0].
  cbn [fst] in *. unfold ret. cbn [fst cells]. f_equal.
  rewrite <- (drop_dead_filter (p_cells st) (dead_indices st)).
  - destruct (dead_indices st); [rewrite drop_dead_nil |]; reflexivity.
  - rewrite Hlen. exact Hdead.
Qed.

(** X26.  Births are counted, and bounded: a tick adds to [total_births]
    exactly the number of children it appends to the collection; each cell
    has at most one child per tick, so the population can at most double. *)
Theorem tick_births_counted (dt : R) (w : World) (g : Rng) :
  let st := fst (cell_pass dt (time_accum w) (cells w) (foods w)
                   (total_births w) g) in
  let w' := fst (tick dt w g) in
  total_births w'
  = (total_births w + Z.of_nat (List.length (new_cells st)))%Z
  /\ (List.length (new_cells st) <= List.length (cells w))%nat
  /\ (List.length (cells w') <= 2 * List.length (cells w))%nat.
Proof.
  intros st w'.
  assert (Hb : total_births w' = p_births st).
  { subst w' st. unfold tick, bind.
    destruct (cell_pass dt (time_accum w) (cells w) (foods w)
                (total_births w) g). reflexivity. }
  assert (Hc : cells w'
               = filter (fun c => negb (Cell.is_dead c)) (p_cells st)
                 ++ new_cells st) by apply tick_cells.
  destruct (cell_pass_inv dt (time_accum w) (cells w) (foods w)
              (total_births w) g) as (Hlen & _).
  fold st in Hlen.
  destruct (for_each_counts dt (time_accum w) (seq 0 (List.length (cells w)))
              (mkPass (cells w) (foods w) [] [] (total_births w)) g)
    as (k & j & Hk & _ & Hn & Hbirths & _).
  fold (cell_pass dt (time_accum w) (cells w) (foods w) (total_births w) g)
    in Hn, Hbirths.
  fold st in Hn, Hbirths. rewrite length_seq in Hk.
  cbn [new_cells p_births List.length] in Hn, Hbirths.
  rewrite Hb, Hc, length_app.
  pose proof (filter_length_le (fun c => negb (Cell.is_dead c)) (p_cells st)).
  repeat split; lia.
Qed.

(** X27.  A tick only ever removes food, and at most one item per cell of
    the pass. *)
Theorem tick_foods_shrink (dt : R) (w : World) (g : Rng) :
  (List.length (foods (fst (tick dt w g))) <= List.length (foods w))%nat
  /\ (List.length (foods w)
      <= List.length (foods (fst (tick dt w g))) + List.length (cells w))%nat.
Proof.
  assert (Hf : foods (fst (tick dt w g))
               = p_foods (fst (cell_pass dt (time_accum w) (cells w)
                                 (foods w) (total_births w) g))).
  { unfold tick, bind.
    destruct (cell_pass dt (time_accum w) (cells w) (foods w)
                (total_births w) g). reflexivity. }
  destruct (for_each_counts dt (time_accum w) (seq 0 (List.length (cells w)))
              (mkPass (cells w) (foods w) [] [] (total_births w)) g)
    as (k & j & _ & Hj & _ & _ & Hlen).
  fold (cell_pass dt (time_accum w) (cells w) (foods w) (total_births w) g)
    in Hlen.
  rewrite length_seq in Hj. cbn [p_foods] in Hlen.
  rewrite Hf. lia.
Qed.

(** ** The pass, cell by cell *)

Section PassForall.

Variables (P Q : Cell.t -> Prop).

(** [P] holds of every cell that has gone through [update] and the split
    attempt, [Q] of every child of such an attempt. *)
Hypothesis step_ok :
  forall c dt fs all_cells time g g',
    P (snd (fst (try_split
                   (cell_of (Cell.update c dt fs all_cells time g)) g')))
    /\ (forall ch,
           fst (fst (try_split
                       (cell_of (Cell.update c dt fs all_cells time g)) g'))
           = Some ch -> Q ch).

Lemma cell_step_forall (dt time : R) (st : Pass) (i : nat) (g : Rng) :
  Forall Q (new_cells st) ->
  Forall Q (new_cells (fst (cell_step dt time st i g)))
  /\ (forall c, nth_error (p_cells (fst (cell_step dt time st i g))) i
                = Some c -> P c)
  /\ (forall j, j <> i ->
                nth_error (p_cells (fst (cell_step dt time st i g))) j
                = nth_error (p_cells st) j).
Proof.
  intros Hq.
  destruct (cell_step dt time st i g) as [st' g'] eqn:E. cbn [fst].
  unfold cell_step in E.
  destruct (nth_error (p_cells st) i) as [c |] eqn:Ec.
  2: { unfold ret in E. inversion E; subst st'.
       split; [exact Hq |]. split; [| reflexivity].
       intros c Hc. congruence. }
  unfold bind in E.
  pose proof (step_ok c dt (p_foods st) (p_cells st) time g) as Hs.
  destruct (Cell.update c dt (p_foods st) (p_cells st) time g)
    as [[[res c1] fs1] g1].
  unfold cell_of in Hs. cbn [fst snd] in Hs. specialize (Hs g1).
  destruct (try_split c1 g1) as [[child c2] g2]. cbn [fst snd] in Hs.
  destruct Hs as [Hp Hch].
  unfold ret in E. inversion E; subst st'. cbn [new_cells p_cells].
  split; [| split].
  - destruct child as [ch |]; [| exact Hq].
    apply Forall_app. split; [exact Hq |].
    constructor; [apply Hch; reflexivity | constructor].
  - intros c0 Hc0. rewrite list_set_same in Hc0.
    + inversion Hc0; subst c0. exact Hp.
    + apply nth_error_Some. congruence.
  - intros j Hj. apply list_set_other. exact Hj.
Qed.

Lemma for_each_forall (dt time : R) (idxs : list nat) (st : Pass) (g : Rng) :
  Forall Q (new_cells st) ->
  Forall Q (new_cells (fst (for_each dt time st idxs g)))
  /\ (forall j c, nth_error (p_cells (fst (for_each dt time st idxs g))) j
                  = Some c ->
                  (In j idxs -> P c)
                  /\ (~ In j idxs -> nth_error (p_cells st) j = Some c)).
Proof.
  revert st g. induction idxs as [| i rest IH]; intros st g Hq.
  - cbn [for_each]. unfold ret. cbn [fst]. split; [exact Hq |].
    intros j c Hc. split; [intros [] | intros _; exact Hc].
  - destruct (for_each dt time st (i :: rest) g) as [st' g'] eqn:E.
    cbn [fst]. cbn [for_each] in E. unfold bind in E.
    destruct (cell_step_forall dt time st i g Hq) as (Hq1 & Hp1 & Ho1).
    destruct (cell_step dt time st i g) as [st1 g1]. cbn [fst] in Hq1, Hp1, Ho1.
    destruct (IH st1 g1 Hq1) as (Hq2 & Hrest).
    rewrite E in Hq2, Hrest. cbn [fst] in Hq2, Hrest.
    split; [exact Hq2 |]. intros j c Hc.
    destruct (Hrest j c Hc) as [Hin Hout].
    destruct (in_dec Nat.eq_dec j rest) as [Hj | Hj].
    + split; [intros _; exact (Hin Hj) |].
      intros N. exfalso. apply N. right. exact Hj.
    + specialize (Hout Hj). split.
      * intros [<- | Hj']; [apply Hp1; exact Hout | contradiction].
      * intros N. rewrite <- Ho1; [exact Hout |].
        intros ->. apply N. left. reflexivity.
Qed.

Lemma cell_pass_forall (dt time : R) (cs : list Cell.t) (fs : list Food.t)
      (births : Z) (g : Rng) :
  Forall P (p_cells (fst (cell_pass dt time cs fs births g)))
  /\ Forall Q (new_cells (fst (cell_pass dt time cs fs births g))).
Proof.
  destruct (cell_pass_inv dt time cs fs births g) as (Hlen & _).
  unfold cell_pass in *.
  destruct (for_each_forall dt time (seq 0 (List.length cs))
              (mkPass cs fs [] [] births) g) as [Hq Hp].
  { constructor. }
  split; [| exact Hq].
  apply Forall_forall. intros c Hc. apply In_nth_error in Hc.
  destruct Hc as [j Hj]. apply (Hp j c Hj).
  apply in_seq. split; [lia |]. cbn [Nat.add]. rewrite <- Hlen.
  apply nth_error_Some. congruence.
Qed.

End PassForall.

Lemma try_split_energy (c : Cell.t) (g : Rng) :
  Cell.energy c <= MAX_ENERGY + ENERGY_FROM_FOOD ->
  Cell.energy (snd (fst (try_split c g))) <= Cell.energy c
  /\ Cell.x (snd (fst (try_split c g))) = Cell.x c
  /\ Cell.y (snd (fst (try_split c g))) = Cell.y c
  /\ (forall ch, fst (fst (try_split c g)) = Some ch ->
                 5 <= Cell.energy ch <= MAX_ENERGY + ENERGY_FROM_FOOD).
Proof.
  unfold MAX_ENERGY, ENERGY_FROM_FOOD. intros He.
  destruct (try_split c g) as [[o c'] g'] eqn:E. cbn [fst snd].
  assert (Hsame : (o, c', g') = (None, c, g) -> 
                  Cell.energy c' <= Cell.energy c
                  /\ Cell.x c' = Cell.x c /\ Cell.y c' = Cell.y c
                  /\ (forall ch, o = Some ch -> 5 <= Cell.energy ch <= 100 + 20)).
  { intros H. inversion H; subst.
    split; [lra |]. split; [reflexivity |]. split; [reflexivity |].
    intros ch D. discriminate. }
  unfold try_split in E.
  destruct (Cell.can_split c) eqn:Hcs;
    [| apply Hsame; unfold ret in E; cbv beta in E; symmetry; exact E].
  unfold bind, random in E.
  destruct (Rltb (unit_src g (draws g)) (2 / 100)).
  2: { unfold ret in E. inversion E; subst.
       split; [lra |]. split; [reflexivity |]. split; [reflexivity |].
       intros ch D. discriminate. }
  unfold Cell.can_split in Hcs. apply andb_true_iff in Hcs.
  destruct Hcs as [Hthr _]. apply Rleb_true in Hthr.
  unfold SPLIT_ENERGY_THRESHOLD in Hthr.
  apply split_cases in E. unfold SPLIT_ENERGY_COST in E.
  destruct E as [(_ & L & _) | (child & -> & N & -> & Hce & _)]; [lra |].
  cbn [Cell.energy Cell.x Cell.y Cell.set_energy].
  split; [lra |]. split; [reflexivity |]. split; [reflexivity |].
  intros ch H. inversion H; subst ch. rewrite Hce.
  rewrite py_max_id by lra. lra.
Qed.

(** X28.  After a tick every cell of the collection, old or newborn, has
    an energy above 0 and at most [MAX_ENERGY + ENERGY_FROM_FOOD] and a
    positive radius, whatever the world before the tick; and every cell
    that went through the pass lies within the margins. *)
Theorem tick_energy_range (dt : R) (w : World) (g : Rng) :
  Forall (fun c => 0 < Cell.energy c <= MAX_ENERGY + ENERGY_FROM_FOOD
                   /\ (0 < Cell.radius c)%Z)
         (cells (fst (tick dt w g)))
  /\ Forall (fun c => inside (Cell.x c) (Cell.y c))
            (p_cells (fst (cell_pass dt (time_accum w) (cells w) (foods w)
                             (total_births w) g))).
Proof.
  destruct (cell_pass_forall
              (fun c => inside (Cell.x c) (Cell.y c)
                        /\ Cell.energy c <= MAX_ENERGY + ENERGY_FROM_FOOD)
              (fun ch => 5 <= Cell.energy ch <= MAX_ENERGY + ENERGY_FROM_FOOD))
    with (dt := dt) (time := time_accum w) (cs := cells w) (fs := foods w)
         (births := total_births w) (g := g) as [Hp Hq].
  { intros c dt0 fs all_cells time g0 g1.
    set (c1 := cell_of (Cell.update c dt0 fs all_cells time g0)).
    assert (H1 : inside (Cell.x c1) (Cell.y c1)
                 /\ Cell.energy c1 <= MAX_ENERGY + ENERGY_FROM_FOOD).
    { subst c1. split.
      - destruct (update_keeps_advance c dt0 fs all_cells time g0)
          as (Ex & Ey & _). rewrite Ex, Ey.
        destruct (advance_cell_shape c dt0 fs g0)
          as (? & ? & ? & ? & ? & ? & E & Hin & _).
        rewrite E. exact Hin.
      - pose proof (decayed_le_max (Cell.energy c) dt0).
        destruct (update_energy c dt0 fs all_cells time g0)
          as [[_ He] | [_ He]]; rewrite He; unfold ENERGY_FROM_FOOD; lra. }
    destruct H1 as [Hin He].
    destruct (try_split_energy c1 g1 He) as (Hle & Hx & Hy & Hch).
    split; [| exact Hch]. rewrite Hx, Hy. split; [exact Hin | lra]. }
  destruct (cell_pass_inv dt (time_accum w) (cells w) (foods w)
              (total_births w) g) as (_ & _ & _ & Hkids).
  split.
  - rewrite tick_cells. apply Forall_app. split.
    + apply Forall_forall. intros c Hc. apply filter_In in Hc.
      destruct Hc as [Hc Halive]. rewrite Forall_forall in Hp.
      destruct (Hp c Hc) as [_ He].
      apply negb_true_iff in Halive. unfold Cell.is_dead in Halive.
      apply orb_false_elim in Halive. destruct Halive as [H0 Hr].
      apply Rleb_false in H0. apply Z.leb_gt in Hr. auto.
    + rewrite Forall_forall in Hq, Hkids |- *. intros ch Hch.
      destruct (Hq ch Hch) as [H5 Hmax].
      destruct (Hkids ch Hch) as [_ Hd]. unfold Cell.is_dead in Hd.
      apply orb_false_elim in Hd. destruct Hd as [_ Hr].
      apply Z.leb_gt in Hr. split; [lra | exact Hr].
  - eapply Forall_impl; [| exact Hp]. intros c [H _]. exact H.
Qed.

(** ** Steering, close to the target direction *)

Lemma py_fmod_small (a b : R) : 0 <= a < b -> py_fmod a b = a.
Proof.
  intros [H0 Hb]. unfold py_fmod.
  assert (Hz : Zfloor (a / b) = 0%Z).
  { apply Zfloor_eq. change (IZR 0) with 0. split.
    - apply Rmult_le_pos; [exact H0 |].
      apply Rlt_le, Rinv_0_lt_compat. lra.
    - apply (Rmult_lt_reg_r b); [lra |].
      unfold Rdiv. rewrite Rmult_assoc, Rinv_l by lra. lra. }
  rewrite Hz. change (IZR 0) with 0. ring.
Qed.

(* ==================== STEERING, EATING AND THE PASS ==================== *)

(** ** Steering toward a target, and the walls *)

Lemma steer_target (c : Cell.t) (tg : Food.t) (g : Rng) :
  Cell.steer c (Some tg) g
  = (Cell.set_angle c (Cell.angle c + turn_toward c tg), g).
Proof. reflexivity. Qed.

Lemma turn_toward_bounded (c : Cell.t) (tg : Food.t) :
  Rabs (turn_toward c tg) <= CELL_MAX_TURN.
Proof.
  unfold turn_toward, py_max, py_min, CELL_MAX_TURN. cbv zeta.
  apply Rabs_le. repeat destruct Rlt_dec; lra.
Qed.

(** [update] up to the eating loop, for a cell that senses the target [tg]:
    the steered and moved cell goes through the wall tests, and the trail
    takes the position they leave. *)
Lemma advance_cell_target (c : Cell.t) (dt : R) (fs : list Food.t) (g : Rng)
      (tg : Food.t) :
  Cell.sense c fs = Some tg ->
  Cell.advance_cell c dt fs g
  = (Cell.set_trail
       (fst (Cell.bounce
               (steered_step (Cell.set_energy c (decayed (Cell.energy c) dt))
                  tg) g))
       (Cell.deque_append
          (Cell.trail
             (fst (Cell.bounce
                     (steered_step
                        (Cell.set_energy c (decayed (Cell.energy c) dt)) tg)
                     g)))
          (Cell.x
             (fst (Cell.bounce
                     (steered_step
                        (Cell.set_energy c (decayed (Cell.energy c) dt)) tg)
                     g)),
           Cell.y
             (fst (Cell.bounce
                     (steered_step
                        (Cell.set_energy c (decayed (Cell.energy c) dt)) tg)
                     g)))),
     snd (Cell.bounce
            (steered_step (Cell.set_energy c (decayed (Cell.energy c) dt)) tg)
            g)).
Proof.
  intros Hs. unfold Cell.advance_cell. rewrite decay_shape.
  set (c1 := Cell.set_energy c (decayed (Cell.energy c) dt)).
  assert (Hs1 : Cell.sense c1 fs = Some tg).
  { rewrite <- Hs. apply sense_position; reflexivity. }
  rewrite Hs1. unfold bind at 1. rewrite steer_target.
  fold (steered_step c1 tg). unfold bind, ret.
  destruct (Cell.bounce (steered_step c1 tg) g) as [b g1]. reflexivity.
Qed.

Lemma steered_step_energy (c : Cell.t) (e : R) (tg : Food.t) :
  Cell.x (steered_step (Cell.set_energy c e) tg) = Cell.x (steered_step c tg)
  /\ Cell.y (steered_step (Cell.set_energy c e) tg)
     = Cell.y (steered_step c tg)
  /\ Cell.angle (steered_step (Cell.set_energy c e) tg)
     = Cell.angle c + turn_toward c tg.
Proof. destruct c. repeat split; reflexivity. Qed.

(** C6 (amended).  For every cell that senses a food target during
    [update], also one directly behind it, steering ([Cell.steer]) adds to
    the heading a turn of at most [CELL_MAX_TURN] in absolute value, and
    draws nothing.  When the steered and
    moved position lies within the margins, so that no wall test fires, the
    heading [update] leaves is the old heading plus that turn.  When a wall
    test fires, the heading is redrawn from the range of that wall, whatever
    steering did (the last test that fires decides): between 0 and pi after
    the top margin, between -pi and 0 after the bottom margin, and, with [y]
    within its margins, between -pi/2 and pi/2 after the left margin and
    between pi/2 and 3*pi/2 after the right margin.  (Generator well
    formed.) *)
Theorem steering_turn_bounded (c : Cell.t) (dt : R) (fs : list Food.t)
        (all_cells : list Cell.t) (time : R) (g : Rng) (tg : Food.t) :
  rng_ok g ->
  Cell.sense c fs = Some tg ->
  let c' := cell_of (Cell.update c dt fs all_cells time g) in
  let m := steered_step c tg in
  Rabs (turn_toward c tg) <= CELL_MAX_TURN
  /\ Cell.steer c (Some tg) g
     = (Cell.set_angle c (Cell.angle c + turn_toward c tg), g)
  /\ (inside (Cell.x m) (Cell.y m) ->
      Cell.angle c' = Cell.angle c + turn_toward c tg)
  /\ (Cell.y m < Cell.margin -> 0 <= Cell.angle c' <= PI)
  /\ (HEIGHT - Cell.margin < Cell.y m -> - PI <= Cell.angle c' <= 0)
  /\ (Cell.margin <= Cell.y m <= HEIGHT - Cell.margin ->
      (Cell.x m < Cell.margin -> - (PI / 2) <= Cell.angle c' <= PI / 2)
      /\ (WIDTH - Cell.margin < Cell.x m ->
          PI / 2 <= Cell.angle c' <= 3 * (PI / 2))).
Proof.
  intros Hg Hs c' m. split; [apply turn_toward_bounded |].
  split; [apply steer_target |].
  destruct (update_keeps_advance c dt fs all_cells time g) as (_ & _ & Ea & _).
  subst c'. rewrite Ea, (advance_cell_target c dt fs g tg Hs).
  cbn [fst]. clear Ea.
  set (m1 := steered_step (Cell.set_energy c (decayed (Cell.energy c) dt)) tg).
  destruct (steered_step_energy c (decayed (Cell.energy c) dt) tg)
    as (Ex & Ey & Eang).
  fold m1 in Ex, Ey, Eang. fold m in Ex, Ey.
  change (Cell.angle (Cell.set_trail (fst (Cell.bounce m1 g))
                        (Cell.deque_append
                           (Cell.trail (fst (Cell.bounce m1 g)))
                           (Cell.x (fst (Cell.bounce m1 g)),
                            Cell.y (fst (Cell.bounce m1 g))))))
    with (Cell.angle (fst (Cell.bounce m1 g))).
  pose proof (bounce_heading_range m1 g Hg) as Hwalls. cbv zeta in Hwalls.
  rewrite ?Ex, ?Ey in Hwalls. destruct Hwalls as (Htop & Hbot & Hside).
  split; [| split; [exact Htop | split; [exact Hbot | exact Hside]]].
  intros Hin.
  destruct (bounce_shape m1 g) as (x' & y' & a' & g' & Eb & _ & Hfree).
  rewrite Ex, Ey in Hfree.
  destruct (Hfree (or_introl Hin)) as (_ & _ & -> & _).
  rewrite Eb. cbn [fst]. rewrite <- Eang.
  destruct m1. reflexivity.
Qed.

(** A target straight behind: the wrapped difference is -pi and the turn is
    the full [CELL_MAX_TURN], clockwise. *)
Lemma turn_toward_behind :
  turn_toward behind_cell (Food.mk 500 300) = - CELL_MAX_TURN.
Proof.
  unfold turn_toward, behind_cell, sample_cell. cbv zeta.
  cbn [Food.x Food.y Cell.x Cell.y Cell.angle].
  pose proof PI2_1 as Hpi.
  assert (E : atan2 (300 - 300) (500 - 450) = 0).
  { unfold atan2.
    destruct (Rlt_dec 0 (500 - 450)) as [_ | N]; [| exfalso; apply N; lra].
    replace ((300 - 300) / (500 - 450)) with 0 by lra. apply atan_0. }
  rewrite E. replace (0 - PI + PI) with 0 by ring.
  rewrite py_fmod_small by lra.
  unfold py_max, py_min, CELL_MAX_TURN. repeat destruct Rlt_dec; lra.
Qed.

Lemma steering_turn_bounded_witness :
  Cell.angle (cell_of (Cell.update behind_cell (16 / 1000) [Food.mk 500 300]
                         [behind_cell] 0 rng_mid))
  = PI - CELL_MAX_TURN.
Proof.
  destruct (steering_turn_bounded behind_cell (16 / 1000) [Food.mk 500 300]
              [behind_cell] 0 rng_mid (Food.mk 500 300) rng_mid_ok)
    as (_ & _ & Hfree & _).
  - apply sense_single. unfold CELL_SENSE_RADIUS.
    cbn [Food.x Food.y Cell.x Cell.y behind_cell sample_cell]. lra.
  - rewrite Hfree.
    + rewrite turn_toward_behind.
      cbn [Cell.angle behind_cell sample_cell]. ring.
    + unfold steered_step, inside, Cell.margin, WIDTH, HEIGHT.
      set (a := Cell.angle behind_cell + turn_toward behind_cell (Food.mk 500 300)).
      pose proof (COS_bound a) as Hc. pose proof (SIN_bound a) as Hsn.
      change (Cell.x (Cell.move (Cell.set_angle behind_cell a)))
        with (450 + cos a * (11 / 9)).
      change (Cell.y (Cell.move (Cell.set_angle behind_cell a)))
        with (300 + sin a * (11 / 9)).
      lra.
Defined.

(** ** Eating, in the pass *)






(** One turn of the loop, spelled out. *)
Lemma cell_step_unfold (dt time : R) (st : Pass) (i : nat) (c : Cell.t)
      (g : Rng) :
  nth_error (p_cells st) i = Some c ->
  cell_step dt time st i g
  = (mkPass
       (list_set (p_cells st) i
          (snd (fst (try_split
                       (cell_of (Cell.update c dt (p_foods st) (p_cells st)
                                   time g))
                       (snd (Cell.update c dt (p_foods st) (p_cells st)
                               time g))))))
       (foods_of (Cell.update c dt (p_foods st) (p_cells st) time g))
       (match fst (fst (try_split
                          (cell_of (Cell.update c dt (p_foods st) (p_cells st)
                                      time g))
                          (snd (Cell.update c dt (p_foods st) (p_cells st)
                                  time g)))) with
        | Some ch => new_cells st ++ [ch]
        | None => new_cells st
        end)
       (if Cell.is_dead
             (snd (fst (try_split
                          (cell_of (Cell.update c dt (p_foods st) (p_cells st)
                                      time g))
                          (snd (Cell.update c dt (p_foods st) (p_cells st)
                                  time g)))))
        then dead_indices st ++ [i] else dead_indices st)
       (match fst (fst (try_split
                          (cell_of (Cell.update c dt (p_foods st) (p_cells st)
                                      time g))
                          (snd (Cell.update c dt (p_foods st) (p_cells st)
                                  time g)))) with
        | Some _ => (p_births st + 1)%Z
        | None => p_births st
        end),
     snd (try_split
            (cell_of (Cell.update c dt (p_foods st) (p_cells st) time g))
            (snd (Cell.update c dt (p_foods st) (p_cells st) time g)))).
Proof.
  intros H. unfold cell_step. rewrite H. unfold bind.
  destruct (Cell.update c dt (p_foods st) (p_cells st) time g)
    as [[[res c1] fs1] g1].
  unfold cell_of, foods_of. cbn [fst snd].
  destruct (try_split c1 g1) as [[ch c2] g2]. reflexivity.
Qed.






(** ** The pass, turn by turn *)

Lemma for_each_app (dt time : R) (l1 l2 : list nat) (st : Pass) (g : Rng) :
  for_each dt time st (l1 ++ l2) g
  = for_each dt time (fst (for_each dt time st l1 g)) l2
      (snd (for_each dt time st l1 g)).
Proof.
  revert st g. induction l1 as [| i l1 IH]; intros st g.
  - reflexivity.
  - cbn [app for_each]. unfold bind.
    destruct (cell_step dt time st i g) as [st1 g1]. apply IH.
Qed.

Lemma pass_prefix_S (dt time : R) (cs : list Cell.t) (fs : list Food.t)
      (births : Z) (k : nat) (g : Rng) :
  pass_prefix dt time cs fs births (S k) g
  = cell_step dt time (fst (pass_prefix dt time cs fs births k g)) k
      (snd (pass_prefix dt time cs fs births k g)).
Proof.
  unfold pass_prefix. rewrite seq_S, for_each_app. cbn [Nat.add for_each].
  unfold bind, ret.
  destruct (cell_step dt time _ k _) as [st1 g1]. reflexivity.
Qed.

Lemma cell_pass_from_prefix (dt time : R) (cs : list Cell.t)
      (fs : list Food.t) (births : Z) (k : nat) (g : Rng) :
  (k <= List.length cs)%nat ->
  cell_pass dt time cs fs births g
  = for_each dt time (fst (pass_prefix dt time cs fs births k g))
      (seq k (List.length cs - k))
      (snd (pass_prefix dt time cs fs births k g)).
Proof.
  intros Hk. unfold cell_pass, pass_prefix.
  rewrite <- for_each_app, <- seq_app.
  replace (k + (List.length cs - k))%nat with (List.length cs) by lia.
  reflexivity.
Qed.

Lemma cell_step_keeps (dt time : R) (st : Pass) (i j : nat) (g : Rng) :
  j <> i ->
  nth_error (p_cells (fst (cell_step dt time st i g))) j
  = nth_error (p_cells st) j.
Proof.
  intros Hj. destruct (nth_error (p_cells st) i) as [c |] eqn:Ec.
  - rewrite (cell_step_unfold dt time st i c g Ec). cbn [fst p_cells].
    apply list_set_other. exact Hj.
  - unfold cell_step. rewrite Ec. reflexivity.
Qed.

Lemma for_each_keeps (dt time : R) (idxs : list nat) (st : Pass) (j : nat)
      (g : Rng) :
  ~ In j idxs ->
  nth_error (p_cells (fst (for_each dt time st idxs g))) j
  = nth_error (p_cells st) j.
Proof.
  revert st g. induction idxs as [| i rest IH]; intros st g Hj.
  - reflexivity.
  - cbn [for_each]. unfold bind.
    pose proof (cell_step_keeps dt time st i j g) as H1.
    destruct (cell_step dt time st i g) as [st1 g1]. cbn [fst] in H1.
    rewrite IH.
    + apply H1. intros ->. apply Hj. left. reflexivity.
    + intros Hin. apply Hj. right. exact Hin.
Qed.

(** The child the loop appends is the one [split] returns. *)
Lemma try_split_child (u : Cell.t) (h : Rng) :
  fst (fst (try_split u h)) = child_of_attempt u h.
Proof.
  unfold try_split, child_of_attempt.
  destruct (Cell.can_split u); [| reflexivity].
  unfold bind, random. cbn [andb].
  destruct (Rltb (unit_src h (draws h)) (2 / 100)); reflexivity.
Qed.

(** C8.  One turn of the [if not paused:] block.
    - The pass goes through the cells the turn started with, one turn of
      the loop per cell: at its turn, cell [k] is still as the tick found
      it; it is updated, makes its split attempt, and is not touched again
      in the pass.  The child of the attempt, the one [split] returns when
      [can_split] holds and the draw is below 0.02, is appended to the side
      buffer [new_cells], and to nothing else: the list under iteration
      keeps its length.
    - So the list of the pass has the same length as the collection before
      the tick and holds, index by index, the same cell, updated (its trail
      is not empty), while no child has been updated (their trails are
      empty).
    - The live collection after the turn is the pass list without its dead
      cells, followed by the side buffer, and no cell of it is dead. *)
Theorem tick_two_phase (dt : R) (w : World) (g : Rng) :
  let prefix := pass_prefix dt (time_accum w) (cells w) (foods w)
                  (total_births w) in
  let st := fst (cell_pass dt (time_accum w) (cells w) (foods w)
                   (total_births w) g) in
  let w' := fst (tick dt w g) in
  (st = fst (prefix (List.length (cells w)) g)
   /\ new_cells (fst (prefix 0%nat g)) = []
   /\ forall k c, nth_error (cells w) k = Some c ->
        let r := Cell.update c dt (p_foods (fst (prefix k g)))
                   (p_cells (fst (prefix k g))) (time_accum w)
                   (snd (prefix k g)) in
        nth_error (p_cells (fst (prefix k g))) k = Some c
        /\ nth_error (p_cells st) k
           = Some (snd (fst (try_split (cell_of r) (snd r))))
        /\ new_cells (fst (prefix (S k) g))
           = new_cells (fst (prefix k g))
             ++ match child_of_attempt (cell_of r) (snd r) with
                | Some ch => [ch]
                | None => []
                end
        /\ List.length (p_cells (fst (prefix (S k) g)))
           = List.length (cells w))
  /\ List.length (p_cells st) = List.length (cells w)
  /\ (forall i c, nth_error (cells w) i = Some c ->
        exists c', nth_error (p_cells st) i = Some c'
                   /\ same_body c c' /\ Cell.trail c' <> [])
  /\ Forall (fun ch => Cell.trail ch = []) (new_cells st)
  /\ cells w'
     = filter (fun c => negb (Cell.is_dead c)) (p_cells st) ++ new_cells st
  /\ Forall (fun c => Cell.is_dead c = false) (cells w').
Proof.
  intros prefix st w'.
  destruct (cell_pass_inv dt (time_accum w) (cells w) (foods w)
              (total_births w) g) as (Hlen & Hcells & Hdead & Hkids).
  fold st in Hlen, Hcells, Hdead, Hkids.
  assert (Hw : cells w'
               = filter (fun c => negb (Cell.is_dead c)) (p_cells st)
                 ++ new_cells st) by apply tick_cells.
  split.
  { split; [reflexivity |]. split; [reflexivity |].
    intros k c Hk r.
    assert (Hlt : (k < List.length (cells w))%nat)
      by (apply nth_error_Some; congruence).
    assert (Hhere : nth_error (p_cells (fst (prefix k g))) k = Some c).
    { subst prefix. unfold pass_prefix. rewrite for_each_keeps.
      - exact Hk.
      - intros Hin. apply in_seq in Hin. lia. }
    assert (Hstep : prefix (S k) g
                    = cell_step dt (time_accum w) (fst (prefix k g)) k
                        (snd (prefix k g))) by apply pass_prefix_S.
    rewrite (cell_step_unfold _ _ _ _ c _ Hhere) in Hstep. fold r in Hstep.
    split; [exact Hhere |]. split; [| split].
    - subst st.
      rewrite (cell_pass_from_prefix dt (time_accum w) (cells w) (foods w)
                 (total_births w) (S k) g Hlt).
      fold prefix. rewrite for_each_keeps.
      + rewrite Hstep. cbn [fst p_cells]. apply list_set_same.
        apply nth_error_Some. congruence.
      + intros Hin. apply in_seq in Hin. lia.
    - rewrite Hstep. cbn [fst new_cells]. rewrite try_split_child.
      destruct (child_of_attempt (cell_of r) (snd r));
        [reflexivity | rewrite app_nil_r; reflexivity].
    - rewrite Hstep. cbn [fst p_cells]. rewrite list_set_length.
      destruct (for_each_inv (cells w) dt (time_accum w) k 0
                  (mkPass (cells w) (foods w) [] [] (total_births w)) g)
        as (Hl & _).
      + cbn [Nat.add]. lia.
      + unfold pass_inv. cbn [p_cells dead_indices new_cells].
        split; [reflexivity |]. split; [| split].
        * intros j c0 Hj. exists c0. split; [exact Hj |].
          split; [apply same_body_refl | lia].
        * intros j. split; [intros [] | intros [Hj _]; lia].
        * constructor.
      + exact Hl. }
  split; [exact Hlen |]. split.
  { intros i c Hi. destruct (Hcells i c Hi) as (c' & E & Hb & Ht).
    exists c'. split; [exact E |]. split; [exact Hb |].
    apply Ht. apply nth_error_Some. congruence. }
  split.
  { eapply Forall_impl; [| exact Hkids]. intros ch [H _]. exact H. }
  split; [exact Hw |].
  rewrite Hw. apply Forall_app. split.
  - apply Forall_forall. intros c Hc. apply filter_In in Hc.
    destruct Hc as [_ Hc]. apply negb_true_iff in Hc. exact Hc.
  - eapply Forall_impl; [| exact Hkids]. intros ch [_ H]. exact H.
Qed.
